(** * Prompt Alchemy (voice-control): the capture / transcription /
      refinement state machine of [App], embedded in Rocq.

    The repository holds two revisions of the [App] component.  Both are
    embedded: [V1] is the revision with the voice/text input toggle
    ([handleManualSubmit]), [V2] the voice-only revision with
    [handleRegenerate].  Every handler of the component is a definition of
    the same name below, written in a small state-and-exception monad over
    the component's React state, its refs and the log of calls it makes to
    the browser, the host and the two remote services.  The two handlers
    that wait for the outside in the middle of their work,
    [startListening] and [optimizePrompt], are embedded twice: whole, and
    cut at their awaits into the stretches the event loop runs, between
    which any other event may be handled. *)

From Stdlib Require Import String Ascii NArith ZArith Bool Lia List.
From Stdlib Require Import DecimalString DecimalZ.
Import ListNotations.

Set Implicit Arguments.

(** ** JavaScript strings *)

Module JS.

(** A JavaScript string is a sequence of UTF-16 code units. *)
Definition jsstring := list N.

Local Open Scope N_scope.

(** [WhiteSpace] and [LineTerminator] of ECMAScript, the code units that
    [String.prototype.trim] strips. *)
Definition is_white_space (c : N) : bool :=
  ((9 <=? c) && (c <=? 13))            (* TAB LF VT FF CR *)
  || (c =? 32)                         (* SPACE *)
  || (c =? 160)                        (* NBSP *)
  || (c =? 5760)                       (* U+1680 *)
  || ((8192 <=? c) && (c <=? 8202))    (* U+2000 .. U+200A *)
  || (c =? 8232) || (c =? 8233)        (* LS PS *)
  || (c =? 8239) || (c =? 8287)        (* U+202F U+205F *)
  || (c =? 12288)                      (* U+3000 *)
  || (c =? 65279)                      (* U+FEFF *).

Fixpoint dropWhile (p : N -> bool) (s : jsstring) : jsstring :=
  match s with
  | [] => []
  | c :: r => if p c then dropWhile p r else s
  end.

Definition trimStart (s : jsstring) : jsstring := dropWhile is_white_space s.
Definition trimEnd (s : jsstring) : jsstring :=
  rev (dropWhile is_white_space (rev s)).
Definition trim (s : jsstring) : jsstring := trimEnd (trimStart s).

(** [ToBoolean] on a string: the empty string is the only falsy one. *)
Definition truthy (s : jsstring) : bool :=
  match s with [] => false | _ :: _ => true end.

Fixpoint startsWith (s needle : jsstring) : bool :=
  match needle, s with
  | [], _ => true
  | _ :: _, [] => false
  | n :: needle', c :: s' => (c =? n) && startsWith s' needle'
  end.

(** [String.prototype.includes]. *)
Fixpoint includes (s needle : jsstring) : bool :=
  startsWith s needle ||
  match s with
  | [] => false
  | _ :: s' => includes s' needle
  end.

(** Source literals are written as UTF-8 text; [utf16] gives their code
    units. *)
Fixpoint utf16_of_utf8 (bs : list N) : jsstring :=
  match bs with
  | [] => []
  | b0 :: r0 =>
    if b0 <? 128 then b0 :: utf16_of_utf8 r0
    else match r0 with
    | [] => [65533]
    | b1 :: r1 =>
      if b0 <? 224 then
        N.lor (N.shiftl (N.land b0 31) 6) (N.land b1 63) :: utf16_of_utf8 r1
      else match r1 with
      | [] => [65533]
      | b2 :: r2 =>
        if b0 <? 240 then
          N.lor (N.shiftl (N.land b0 15) 12)
                (N.lor (N.shiftl (N.land b1 63) 6) (N.land b2 63))
          :: utf16_of_utf8 r2
        else match r2 with
        | [] => [65533]
        | b3 :: r3 =>
          let cp :=
            N.lor (N.shiftl (N.land b0 7) 18)
              (N.lor (N.shiftl (N.land b1 63) 12)
                 (N.lor (N.shiftl (N.land b2 63) 6) (N.land b3 63))) in
          let v := cp - 65536 in
          (55296 + N.shiftr v 10) :: (56320 + N.land v 1023)
          :: utf16_of_utf8 r3
        end
      end
    end
  end.

Definition bytes_of (s : string) : list N :=
  map N_of_ascii (list_ascii_of_string s).

Definition utf16 (s : string) : jsstring := utf16_of_utf8 (bytes_of s).
Arguments utf16 s%_string.

(** [ToString] of an optional string: [undefined] becomes the nine
    letters of its name, as in [s += undefined]. *)
Definition undefined_text : jsstring := utf16 "undefined".

Definition ToString (t : option jsstring) : jsstring :=
  match t with Some s => s | None => undefined_text end.

(** [Number.prototype.toString] on an integral number of milliseconds:
    decimal digits, with a leading minus sign below zero. *)
Definition Number_toString (z : Z) : jsstring :=
  bytes_of (NilEmpty.string_of_int (Z.to_int z)).

End JS.

Import JS.
Arguments utf16 s%_string.


(** ** Data model ([types.ts]) *)

Inductive AppStatus := IDLE | LISTENING | OPTIMIZING | FINISHED | ERROR.

Definition AppStatus_eqb (a b : AppStatus) : bool :=
  match a, b with
  | IDLE, IDLE | LISTENING, LISTENING | OPTIMIZING, OPTIMIZING
  | FINISHED, FINISHED | ERROR, ERROR => true
  | _, _ => false
  end.

Module HistoryItem.
Record t := {
  id : jsstring;
  timestamp : Z;
  rawInput : jsstring;
  optimizedPrompt : jsstring
}.
End HistoryItem.

(** [type InputMode = 'voice' | 'text'] (first revision only). *)
Inductive InputMode := mode_voice | mode_text.

(** The two revisions of [App]. *)
Inductive Variant := V1 | V2.

(** ** Browser, host and service objects the component holds *)

Inductive AudioContextState := suspended | running | closed.

(** [ctx_state] is the state the context is created in.  The component
    reads [audioCtx.state] twice: after creating the context, to see
    whether it is ['suspended'], and in the teardown, to see whether it is
    ['closed']; nothing but the teardown closes a context. *)
Record AudioContext := { ctx_id : nat; ctx_state : AudioContextState }.
Record MediaStream := { stream_id : nat; getTracks : list nat }.
Record ScriptProcessorNode := { node_id : nat }.

(** A thrown value, as far as the component inspects it: [e?.message]. *)
Record JsError := { message : option jsstring }.

(** The live session handle.  [close_raises] is what [session.close()]
    throws, if it throws. *)
Record Session := { session_id : nat; close_raises : option JsError }.

(** [window.aistudio]: both operations are optional capabilities. *)
Record Host := {
  host_hasSelectedApiKey : bool;   (* window.aistudio?.hasSelectedApiKey *)
  host_openSelectKey : bool        (* window.aistudio?.openSelectKey *)
}.

(** [LiveServerMessage], down to [serverContent?.inputTranscription?.text]. *)
Record Transcription := { transcription_text : option jsstring }.
Record ServerContent := { inputTranscription : option Transcription }.
Record LiveServerMessage := { serverContent : option ServerContent }.

(** [GenerateContentResponse]: its [text] accessor may yield [undefined]. *)
Record GenerateContentResponse := { text : option jsstring }.

(** Calls the component makes to the outside.  [console.*] calls and the
    audio-graph wiring of [onopen] change nothing the component reads and
    are left out. *)
Inductive Call :=
| call_hasSelectedApiKey
| call_openSelectKey
| call_resume (ctx : nat)
| call_getUserMedia
| call_live_connect (session : nat)
| call_sendRealtimeInput (session : nat)
| call_session_close (session : nat)
| call_disconnect (node : nat)
| call_track_stop (track : nat)
| call_context_close (ctx : nat)
| call_generateContentStream (contents : jsstring).

(** ** Component state *)

(** The [useState] cells. *)
Record State := {
  status : AppStatus;
  inputMode : InputMode;
  transcript : jsstring;
  manualText : jsstring;
  optimizedPrompt : jsstring;
  history : list HistoryItem.t;
  error : option jsstring;
  needsApiKey : bool
}.

(** The [useRef] cells. *)
Record Refs := {
  audioContextRef : option AudioContext;
  streamRef : option MediaStream;
  scriptProcessorRef : option ScriptProcessorNode;
  transcriptRef : jsstring;
  sessionRef : option Session
}.

(** State, refs, the calls made so far (newest first) and the number of
    [openSelectKey()] promises whose continuation has not run yet. *)
Record World := {
  state : State;
  refs : Refs;
  calls : list Call;
  keyFlows : nat
}.

Definition with_state (f : State -> State) (w : World) : World :=
  {| state := f (state w); refs := refs w; calls := calls w;
     keyFlows := keyFlows w |}.
Definition with_refs (f : Refs -> Refs) (w : World) : World :=
  {| state := state w; refs := f (refs w); calls := calls w;
     keyFlows := keyFlows w |}.
Definition with_calls (f : list Call -> list Call) (w : World) : World :=
  {| state := state w; refs := refs w; calls := f (calls w);
     keyFlows := keyFlows w |}.
Definition with_keyFlows (f : nat -> nat) (w : World) : World :=
  {| state := state w; refs := refs w; calls := calls w;
     keyFlows := f (keyFlows w) |}.

Definition put_status v (s : State) : State :=
  {| status := v; inputMode := inputMode s; transcript := transcript s;
     manualText := manualText s; optimizedPrompt := optimizedPrompt s;
     history := history s; error := error s; needsApiKey := needsApiKey s |}.
Definition put_inputMode v (s : State) : State :=
  {| status := status s; inputMode := v; transcript := transcript s;
     manualText := manualText s; optimizedPrompt := optimizedPrompt s;
     history := history s; error := error s; needsApiKey := needsApiKey s |}.
Definition put_transcript v (s : State) : State :=
  {| status := status s; inputMode := inputMode s; transcript := v;
     manualText := manualText s; optimizedPrompt := optimizedPrompt s;
     history := history s; error := error s; needsApiKey := needsApiKey s |}.
Definition put_manualText v (s : State) : State :=
  {| status := status s; inputMode := inputMode s; transcript := transcript s;
     manualText := v; optimizedPrompt := optimizedPrompt s;
     history := history s; error := error s; needsApiKey := needsApiKey s |}.
Definition put_optimizedPrompt v (s : State) : State :=
  {| status := status s; inputMode := inputMode s; transcript := transcript s;
     manualText := manualText s; optimizedPrompt := v;
     history := history s; error := error s; needsApiKey := needsApiKey s |}.
Definition put_history v (s : State) : State :=
  {| status := status s; inputMode := inputMode s; transcript := transcript s;
     manualText := manualText s; optimizedPrompt := optimizedPrompt s;
     history := v; error := error s; needsApiKey := needsApiKey s |}.
Definition put_error v (s : State) : State :=
  {| status := status s; inputMode := inputMode s; transcript := transcript s;
     manualText := manualText s; optimizedPrompt := optimizedPrompt s;
     history := history s; error := v; needsApiKey := needsApiKey s |}.
Definition put_needsApiKey v (s : State) : State :=
  {| status := status s; inputMode := inputMode s; transcript := transcript s;
     manualText := manualText s; optimizedPrompt := optimizedPrompt s;
     history := history s; error := error s; needsApiKey := v |}.

Definition put_audioContextRef v (r : Refs) : Refs :=
  {| audioContextRef := v; streamRef := streamRef r;
     scriptProcessorRef := scriptProcessorRef r;
     transcriptRef := transcriptRef r; sessionRef := sessionRef r |}.
Definition put_streamRef v (r : Refs) : Refs :=
  {| audioContextRef := audioContextRef r; streamRef := v;
     scriptProcessorRef := scriptProcessorRef r;
     transcriptRef := transcriptRef r; sessionRef := sessionRef r |}.
Definition put_scriptProcessorRef v (r : Refs) : Refs :=
  {| audioContextRef := audioContextRef r; streamRef := streamRef r;
     scriptProcessorRef := v;
     transcriptRef := transcriptRef r; sessionRef := sessionRef r |}.
Definition put_transcriptRef v (r : Refs) : Refs :=
  {| audioContextRef := audioContextRef r; streamRef := streamRef r;
     scriptProcessorRef := scriptProcessorRef r;
     transcriptRef := v; sessionRef := sessionRef r |}.
Definition put_sessionRef v (r : Refs) : Refs :=
  {| audioContextRef := audioContextRef r; streamRef := streamRef r;
     scriptProcessorRef := scriptProcessorRef r;
     transcriptRef := transcriptRef r; sessionRef := v |}.

(** ** The handler monad: state passing with JavaScript exceptions *)

Inductive Outcome (A : Type) : Type :=
| Returned (a : A)
| Raised (e : JsError).
Arguments Returned {A} a.
Arguments Raised {A} e.

Definition M (A : Type) : Type := World -> Outcome A * World.

Definition ret {A} (a : A) : M A := fun w => (Returned a, w).
Definition bind {A B} (m : M A) (k : A -> M B) : M B :=
  fun w =>
    match m w with
    | (Returned a, w') => k a w'
    | (Raised e, w') => (Raised e, w')
    end.
Definition raise {A} (e : JsError) : M A := fun w => (Raised e, w).

(** [try { body } catch (e) { handler e }]. *)
Definition tryCatch {A} (body : M A) (handler : JsError -> M A) : M A :=
  fun w =>
    match body w with
    | (Returned a, w') => (Returned a, w')
    | (Raised e, w') => handler e w'
    end.

Definition get {A} (f : World -> A) : M A := fun w => (Returned (f w), w).
Definition modify (f : World -> World) : M unit := fun w => (Returned tt, f w).

(** The world a handler leaves behind, whether it returned or threw. *)
Definition exec {A} (m : M A) (w : World) : World := snd (m w).
Definition result {A} (m : M A) (w : World) : Outcome A := fst (m w).

(** [await p] where the promise settles as [o]. *)
Definition await {A} (o : Outcome A) : M A :=
  match o with Returned a => ret a | Raised e => raise e end.

Declare Scope js_scope.
Delimit Scope js_scope with js.
Notation "x <- c1 ;; c2" := (bind c1 (fun x => c2))
  (at level 61, c1 at next level, right associativity) : js_scope.
Notation "c1 ;; c2" := (bind c1 (fun _ => c2))
  (at level 61, right associativity) : js_scope.
Open Scope js_scope.

Definition call (c : Call) : M unit := modify (with_calls (cons c)).

Fixpoint forEach {A} (l : list A) (f : A -> M unit) : M unit :=
  match l with
  | [] => ret tt
  | x :: r => f x ;; forEach r f
  end.

Definition setStatus v : M unit := modify (with_state (put_status v)).
Definition setInputMode v : M unit := modify (with_state (put_inputMode v)).
Definition setTranscript v : M unit := modify (with_state (put_transcript v)).
Definition setManualText v : M unit := modify (with_state (put_manualText v)).
Definition setOptimizedPrompt v : M unit :=
  modify (with_state (put_optimizedPrompt v)).
Definition setHistory (f : list HistoryItem.t -> list HistoryItem.t) : M unit :=
  modify (with_state (fun s => put_history (f (history s)) s)).
Definition setError v : M unit := modify (with_state (put_error v)).
Definition setNeedsApiKey v : M unit := modify (with_state (put_needsApiKey v)).

(** ** The handlers of [App] *)

(** What the environment answers at the awaits of [startListening],
    [handleManualSubmit] and the mount effect. *)
Record KeyEnv := {
  env_hasKey : Outcome bool;        (* await hasSelectedApiKey() *)
  env_selectKey : Outcome unit      (* await openSelectKey() *)
}.

Record StartEnv := {
  env_key : KeyEnv;
  env_audioContext : Outcome AudioContext;   (* new AudioCtxClass(...) *)
  env_resume : Outcome unit;                 (* await audioCtx.resume() *)
  env_getUserMedia : Outcome MediaStream;    (* await getUserMedia(...) *)
  env_session : Session                      (* what sessionPromise resolves to *)
}.

(** What the callbacks handed to [ai.live.connect] close over.  [status]
    is a [const] of the render in which [startListening] was created, so
    the callbacks see the status of that render for the rest of their
    life, whatever [setStatus] does later. *)
Record Connection := {
  conn_status : AppStatus;
  conn_audioCtx : AudioContext;
  conn_stream : MediaStream;
  conn_session : Session
}.

(** Where a run of [startListening] waits, with the local it holds
    there: [audioCtx], which the first revision creates before it asks
    for the microphone and the second after. *)
Inductive StartPoint :=
| at_hasSelectedApiKey      (* await window.aistudio.hasSelectedApiKey() *)
| at_openSelectKey          (* await handleSelectKey(): await openSelectKey() *)
| at_resume (audioCtx : AudioContext)                (* await audioCtx.resume() *)
| at_getUserMedia (audioCtx : option AudioContext).  (* await getUserMedia(...) *)

(** How a stretch of [startListening] ends: at the next await, with the
    callbacks installed, or with the run over (in its [catch]). *)
Inductive StartNext :=
| Suspended (p : StartPoint)
| Installed (c : Connection)
| Over.

(** A suspended run of [startListening]: the [status] of the render that
    created it, and where it waits. *)
Record Start := {
  start_status : AppStatus;
  start_point : StartPoint
}.

(** The locals of one run of [optimizePrompt]. *)
Record Refinement := {
  rawInput : jsstring;
  fullText : jsstring
}.

(** How a response stream ends: exhausted (with the two readings of
    [Date.now()] the history item takes), or with a thrown error. *)
Inductive StreamEnd :=
| Exhausted (now_id now_timestamp : Z)
| Failed (e : JsError).

Definition entity_not_found : jsstring :=
  utf16 "Requested entity was not found.".
Definition key_not_valid : jsstring := utf16 "API key not valid".

(** [e?.message?.includes(needle)] used as a condition. *)
Definition message_includes (e : JsError) (needle : jsstring) : bool :=
  match message e with
  | Some m => includes m needle
  | None => false
  end.

Definition quote : jsstring := [34%N].
Definition newline : jsstring := [10%N].

Section Handlers.

Variable v : Variant.
Variable host : Host.

Definition msg_voice_error : jsstring :=
  match v with
  | V1 => utf16 "语音引擎连接失败，请检查密钥是否正确配置。"
  | V2 => utf16 "语音引擎连接中断，请检查网络或密钥。"
  end.
Definition msg_microphone : jsstring :=
  match v with
  | V1 => utf16 "麦克风权限受阻，请确保浏览器允许访问音频。"
  | V2 => utf16 "无法获取麦克风权限。"
  end.
Definition msg_refine_no_entity : jsstring :=
  match v with
  | V1 => utf16 "炼制失败：未找到有效密钥或项目。请重新选择并重试。"
  | V2 => utf16 "提示词炼制失败，请重试。"
  end.
Definition msg_refine_bad_key : jsstring :=
  match v with
  | V1 => utf16 "API 密钥无效，请点击上方配置正确的密钥。"
  | V2 => utf16 "提示词炼制失败，请重试。"
  end.
Definition msg_refine_other : jsstring :=
  match v with
  | V1 => utf16 "炼制过程中发生网络异常或密钥额度不足，请重试。"
  | V2 => utf16 "提示词炼制失败，请重试。"
  end.

(** The template literal passed as [contents]. *)
Definition contents (rawInput : jsstring) : jsstring :=
  match v with
  | V1 => utf16 "你是一名顶级的 AI 提示词架构师。请将以下口语化的内容转换为一个结构清晰、指令明确、具备背景设定的高质量专业提示词。"
  | V2 => utf16 "你是一名顶级的 AI 提示词架构师。请将以下口语化的语音转录内容转换为一个结构清晰、指令明确、具备背景设定的高质量专业提示词。"
  end
  ++ newline ++ utf16 "内容： " ++ quote ++ rawInput ++ quote
  ++ newline ++ utf16 "仅输出 Markdown 格式的提示词。不要包含多余说明。".

(** *** [handleSelectKey] *)

(** Up to its [await]: whether [openSelectKey()] was called. *)
Definition handleSelectKey_open : M bool :=
  if host_openSelectKey host
  then call call_openSelectKey ;; ret true
  else ret false.

(** From its [await] on, once [openSelectKey()] has settled as [o].  The
    first revision wraps this in [try]/[catch]. *)
Definition handleSelectKey_settle (o : Outcome unit) : M unit :=
  match v with
  | V1 => tryCatch (await o ;; setNeedsApiKey false) (fun _ => ret tt)
  | V2 => await o ;; setNeedsApiKey false
  end.

(** [await handleSelectKey()]. *)
Definition handleSelectKey_awaited (o : Outcome unit) : M unit :=
  opened <- handleSelectKey_open ;;
  if opened then handleSelectKey_settle o else ret tt.

(** [handleSelectKey()] not awaited: the continuation stays pending. *)
Definition handleSelectKey : M unit :=
  opened <- handleSelectKey_open ;;
  if opened then modify (with_keyFlows S) else ret tt.

(** The mount effect [checkKey]. *)
Definition checkKey (o : Outcome bool) : M unit :=
  if host_hasSelectedApiKey host then
    call call_hasSelectedApiKey ;;
    hasKey <- await o ;;
    setNeedsApiKey (negb hasKey)
  else ret tt.

(** *** [stopListeningInternal] and [handleError] *)

Definition session_close (s : Session) : M unit :=
  call (call_session_close (session_id s)) ;;
  match close_raises s with
  | Some e => raise e
  | None => ret tt
  end.

Definition stopListeningInternal : M unit :=
  (cur <- get (fun w => sessionRef (refs w)) ;;
   match cur with
   | Some s =>
       tryCatch (session_close s) (fun _ => ret tt) ;;
       modify (with_refs (put_sessionRef None))
   | None => ret tt
   end) ;;
  (cur <- get (fun w => scriptProcessorRef (refs w)) ;;
   match cur with
   | Some n =>
       call (call_disconnect (node_id n)) ;;
       modify (with_refs (put_scriptProcessorRef None))
   | None => ret tt
   end) ;;
  (cur <- get (fun w => streamRef (refs w)) ;;
   match cur with
   | Some s =>
       forEach (getTracks s) (fun track => call (call_track_stop track)) ;;
       modify (with_refs (put_streamRef None))
   | None => ret tt
   end) ;;
  (cur <- get (fun w => audioContextRef (refs w)) ;;
   match cur with
   | Some c =>
       (match ctx_state c with
        | closed => ret tt
        | _ => call (call_context_close (ctx_id c))
        end) ;;
       modify (with_refs (put_audioContextRef None))
   | None => ret tt
   end).

Definition handleError (msg : jsstring) : M unit :=
  setError (Some msg) ;;
  setStatus ERROR ;;
  stopListeningInternal.

(** *** [optimizePrompt], cut at its awaits *)

(** Up to [await ai.models.generateContentStream(...)]. *)
Definition optimizePrompt_begin (rawInput : jsstring) : M Refinement :=
  setStatus OPTIMIZING ;;
  setOptimizedPrompt [] ;;
  (match v with V1 => setError None | V2 => ret tt end) ;;
  call (call_generateContentStream (contents rawInput)) ;;
  ret {| rawInput := rawInput; fullText := [] |}.

(** One turn of [for await (const chunk of responseStream)]. *)
Definition optimizePrompt_chunk (r : Refinement)
    (c : GenerateContentResponse) : M Refinement :=
  match v with
  | V1 =>
      match text c with
      | Some t =>
          if truthy t then
            let fullText' := fullText r ++ t in
            setOptimizedPrompt fullText' ;;
            ret {| rawInput := rawInput r; fullText := fullText' |}
          else ret r
      | None => ret r
      end
  | V2 =>
      let fullText' := fullText r ++ ToString (text c) in
      setOptimizedPrompt fullText' ;;
      ret {| rawInput := rawInput r; fullText := fullText' |}
  end.

(** After the loop. *)
Definition optimizePrompt_finish (r : Refinement)
    (now_id now_timestamp : Z) : M unit :=
  setHistory (fun prev =>
    {| HistoryItem.id := Number_toString now_id;
       HistoryItem.timestamp := now_timestamp;
       HistoryItem.rawInput := rawInput r;
       HistoryItem.optimizedPrompt := fullText r |} :: prev) ;;
  setStatus FINISHED.

(** The [catch] block. *)
Definition optimizePrompt_catch (err : JsError) : M unit :=
  match v with
  | V1 =>
      if message_includes err entity_not_found then
        setNeedsApiKey true ;;
        handleSelectKey ;;
        handleError msg_refine_no_entity
      else if message_includes err key_not_valid then
        handleError msg_refine_bad_key
      else
        handleError msg_refine_other
  | V2 =>
      (if message_includes err entity_not_found then
         setNeedsApiKey true ;;
         handleSelectKey
       else ret tt) ;;
      handleError msg_refine_other
  end.

Fixpoint optimizePrompt_loop (r : Refinement)
    (chunks : list GenerateContentResponse) : M Refinement :=
  match chunks with
  | [] => ret r
  | c :: rest =>
      r' <- optimizePrompt_chunk r c ;;
      optimizePrompt_loop r' rest
  end.

(** One whole run of [optimizePrompt], the stream delivering [chunks]
    and then ending as [fin], with no other handler in between. *)
Definition optimizePrompt (rawInput : jsstring)
    (chunks : list GenerateContentResponse) (fin : StreamEnd) : M unit :=
  r <- optimizePrompt_begin rawInput ;;
  r' <- optimizePrompt_loop r chunks ;;
  match fin with
  | Exhausted now_id now_timestamp =>
      optimizePrompt_finish r' now_id now_timestamp
  | Failed e => optimizePrompt_catch e
  end.

(** *** [startListening] and the callbacks it installs *)

(** The key check that [startListening] and [handleManualSubmit] of the
    first revision both write inline:
    [if (window.aistudio?.hasSelectedApiKey) { const hasKey = await ...;
    if (!hasKey) await handleSelectKey(); }]. *)
Definition key_check (env : KeyEnv) : M unit :=
  if host_hasSelectedApiKey host then
    call call_hasSelectedApiKey ;;
    hasKey <- await (env_hasKey env) ;;
    if hasKey then ret tt else handleSelectKey_awaited (env_selectKey env)
  else ret tt.

(** The body of the [try] block, run whole; it yields the closure of the
    callbacks. *)
Definition startListening_try (env : StartEnv) (rendered : AppStatus)
    : M Connection :=
  match v with
  | V1 =>
      audioCtx <- await (env_audioContext env) ;;
      modify (with_refs (put_audioContextRef (Some audioCtx))) ;;
      (match ctx_state audioCtx with
       | suspended =>
           call (call_resume (ctx_id audioCtx)) ;;
           await (env_resume env)
       | _ => ret tt
       end) ;;
      call call_getUserMedia ;;
      stream <- await (env_getUserMedia env) ;;
      modify (with_refs (put_streamRef (Some stream))) ;;
      call (call_live_connect (session_id (env_session env))) ;;
      ret {| conn_status := rendered; conn_audioCtx := audioCtx;
             conn_stream := stream; conn_session := env_session env |}
  | V2 =>
      call call_getUserMedia ;;
      stream <- await (env_getUserMedia env) ;;
      modify (with_refs (put_streamRef (Some stream))) ;;
      audioCtx <- await (env_audioContext env) ;;
      modify (with_refs (put_audioContextRef (Some audioCtx))) ;;
      call (call_live_connect (session_id (env_session env))) ;;
      ret {| conn_status := rendered; conn_audioCtx := audioCtx;
             conn_stream := stream; conn_session := env_session env |}
  end.

(** One whole run of [startListening], its awaits answered as [env]
    says, with no other handler in between. *)
Definition startListening (env : StartEnv) : M (option Connection) :=
  rendered <- get (fun w => status (state w)) ;;
  (match v with
   | V1 => key_check (env_key env)
   | V2 =>
       needs <- get (fun w => needsApiKey (state w)) ;;
       if needs then handleSelectKey_awaited (env_selectKey (env_key env))
       else ret tt
   end) ;;
  setError None ;;
  setTranscript [] ;;
  setOptimizedPrompt [] ;;
  modify (with_refs (put_transcriptRef [])) ;;
  tryCatch
    (c <- startListening_try env rendered ;; ret (Some c))
    (fun _ => handleError msg_microphone ;; ret None).

(** *** [startListening], cut at its awaits *)

(** [try { body } catch (err) { handleError(...) }], the [try] of
    [startListening]. *)
Definition startListening_catch (body : M StartNext) : M StartNext :=
  tryCatch body (fun _ => handleError msg_microphone ;; ret Over).

(** Up to [await navigator.mediaDevices.getUserMedia(...)]. *)
Definition startListening_request (audioCtx : option AudioContext)
    : M StartNext :=
  call call_getUserMedia ;;
  ret (Suspended (at_getUserMedia audioCtx)).

(** The [try] block up to its first await. *)
Definition startListening_enter (env : StartEnv) : M StartNext :=
  match v with
  | V1 =>
      audioCtx <- await (env_audioContext env) ;;
      modify (with_refs (put_audioContextRef (Some audioCtx))) ;;
      match ctx_state audioCtx with
      | suspended =>
          call (call_resume (ctx_id audioCtx)) ;;
          ret (Suspended (at_resume audioCtx))
      | _ => startListening_request (Some audioCtx)
      end
  | V2 => startListening_request None
  end.

(** Past the key check: the reset, and on into the [try] block. *)
Definition startListening_reset (env : StartEnv) : M StartNext :=
  setError None ;;
  setTranscript [] ;;
  setOptimizedPrompt [] ;;
  modify (with_refs (put_transcriptRef [])) ;;
  startListening_catch (startListening_enter env).

(** [await handleSelectKey()], up to the await inside it.  Where the host
    has no [openSelectKey], [handleSelectKey] returns a promise that is
    settled already, and the run goes on before any event is handled. *)
Definition startListening_selectKey (env : StartEnv) : M StartNext :=
  opened <- handleSelectKey_open ;;
  if opened then ret (Suspended at_openSelectKey)
  else startListening_reset env.

(** From the click to the first await. *)
Definition startListening_begin (env : StartEnv) : M StartNext :=
  match v with
  | V1 =>
      if host_hasSelectedApiKey host then
        call call_hasSelectedApiKey ;;
        ret (Suspended at_hasSelectedApiKey)
      else startListening_reset env
  | V2 =>
      needs <- get (fun w => needsApiKey (state w)) ;;
      if needs then startListening_selectKey env
      else startListening_reset env
  end.

(** From the await at [p], which settles as [env] says, to the next
    await or to the end.  [rendered] is the [status] the run closes
    over. *)
Definition startListening_resume (rendered : AppStatus) (p : StartPoint)
    (env : StartEnv) : M StartNext :=
  match p with
  | at_hasSelectedApiKey =>
      hasKey <- await (env_hasKey (env_key env)) ;;
      if hasKey then startListening_reset env
      else startListening_selectKey env
  | at_openSelectKey =>
      handleSelectKey_settle (env_selectKey (env_key env)) ;;
      startListening_reset env
  | at_resume audioCtx =>
      startListening_catch
        (await (env_resume env) ;;
         startListening_request (Some audioCtx))
  | at_getUserMedia created =>
      startListening_catch
        (stream <- await (env_getUserMedia env) ;;
         modify (with_refs (put_streamRef (Some stream))) ;;
         audioCtx <-
           (match created with
            | Some audioCtx => ret audioCtx
            | None =>
                audioCtx <- await (env_audioContext env) ;;
                modify (with_refs (put_audioContextRef (Some audioCtx))) ;;
                ret audioCtx
            end) ;;
         call (call_live_connect (session_id (env_session env))) ;;
         ret (Installed {| conn_status := rendered;
                           conn_audioCtx := audioCtx;
                           conn_stream := stream;
                           conn_session := env_session env |}))
  end.

Definition onopen (node : ScriptProcessorNode) : M unit :=
  modify (with_refs (put_scriptProcessorRef (Some node))) ;;
  setStatus LISTENING.

(** [onaudioprocess], with the [sessionPromise.then] it schedules. *)
Definition onaudioprocess (c : Connection) : M unit :=
  modify (with_refs (put_sessionRef (Some (conn_session c)))) ;;
  call (call_sendRealtimeInput (session_id (conn_session c))).

Definition onmessage (m : LiveServerMessage) : M unit :=
  match serverContent m with
  | Some sc =>
      match inputTranscription sc with
      | Some tr =>
          let part := ToString (transcription_text tr) in
          modify (with_refs (fun r =>
            put_transcriptRef (transcriptRef r ++ part) r)) ;;
          cur <- get (fun w => transcriptRef (refs w)) ;;
          setTranscript cur
      | None => ret tt
      end
  | None => ret tt
  end.

Definition onerror (e : JsError) : M unit :=
  (if message_includes e entity_not_found then
     setNeedsApiKey true ;;
     handleSelectKey
   else ret tt) ;;
  handleError msg_voice_error.

Definition stopListening : M (option Refinement) :=
  cur <- get (fun w => transcriptRef (refs w)) ;;
  let finalTranscript := trim cur in
  stopListeningInternal ;;
  if truthy finalTranscript then
    r <- optimizePrompt_begin finalTranscript ;;
    ret (Some r)
  else
    setStatus IDLE ;;
    ret None.

(** [onclose] tests the [status] its closure holds. *)
Definition onclose (c : Connection) : M (option Refinement) :=
  if AppStatus_eqb (conn_status c) LISTENING then stopListening
  else ret None.

End Handlers.

(** *** Text entry (first revision only) *)

Definition handleManualSubmit (host : Host) (env : KeyEnv)
    : M (option Refinement) :=
  manual <- get (fun w => manualText (state w)) ;;
  if truthy (trim manual) then
    key_check V1 host env ;;
    r <- optimizePrompt_begin V1 (trim manual) ;;
    ret (Some r)
  else ret None.

(** *** Regeneration (second revision only) *)

Definition handleRegenerate : M (option Refinement) :=
  cur <- get (fun w => transcriptRef (refs w)) ;;
  if truthy (trim cur) then
    r <- optimizePrompt_begin V2 cur ;;
    ret (Some r)
  else ret None.

(** ** The component as an event-driven system *)

Definition initial_world : World :=
  {| state := {| status := IDLE; inputMode := mode_voice; transcript := [];
                 manualText := []; optimizedPrompt := []; history := [];
                 error := None; needsApiKey := false |};
     refs := {| audioContextRef := None; streamRef := None;
                scriptProcessorRef := None; transcriptRef := [];
                sessionRef := None |};
     calls := [];
     keyFlows := 0 |}.

(** The component together with the closures that are alive outside it:
    the callbacks of every [ai.live.connect] made so far, the suspended
    runs of [optimizePrompt] and the suspended runs of [startListening]
    ([None] once a run is over). *)
Record Sys := {
  world : World;
  connections : list Connection;
  refinements : list (option Refinement);
  starts : list (option Start)
}.

Definition initial : Sys :=
  {| world := initial_world; connections := []; refinements := [];
     starts := [] |}.

(** What the event loop may deliver: clicks on the controls the JSX
    renders, and the callbacks of the host and of the two services.  A
    click on the start button comes in two forms: [BeginStart] runs
    [startListening] to its first await and [ResumeStart] takes run [k]
    from the await it waits at to the next, so that anything may happen
    in between; [ClickStart] is the click whose awaits are all answered
    before any other event is handled. *)
Inductive Event :=
| Mounted (o : Outcome bool)
| ClickStart (env : StartEnv)
| BeginStart (env : StartEnv)
| ResumeStart (k : nat) (env : StartEnv)
| ClickStop
| ClickRefine (env : KeyEnv)
| ClickRegenerate
| ClickDismiss
| ClickSelectKey
| ChangeInputMode (m : InputMode)
| ChangeManualText (t : jsstring)
| KeyFlowSettled (o : Outcome unit)
| SessionOpen (k : nat) (node : ScriptProcessorNode)
| AudioProcess (k : nat)
| SessionMessage (k : nat) (m : LiveServerMessage)
| SessionError (k : nat) (e : JsError)
| SessionClose (k : nat)
| StreamChunk (r : nat) (c : GenerateContentResponse)
| StreamExhausted (r : nat) (now_id now_timestamp : Z)
| StreamFailed (r : nat) (e : JsError).

Fixpoint replace_nth {A} (n : nat) (x : A) (l : list A) : list A :=
  match n, l with
  | _, [] => []
  | O, _ :: r => x :: r
  | S n', y :: r => y :: replace_nth n' x r
  end.

Definition is_voice (m : InputMode) : bool :=
  match m with mode_voice => true | mode_text => false end.

Section Machine.

Variable v : Variant.
Variable host : Host.

(** Which control the JSX renders enabled in a given state. *)
Definition shows_result (s : State) : bool :=
  AppStatus_eqb (status s) FINISHED && truthy (optimizedPrompt s).

Definition voice_panel (s : State) : bool :=
  match v with V1 => is_voice (inputMode s) | V2 => true end.

Definition can_start (s : State) : bool :=
  voice_panel s
  && negb (AppStatus_eqb (status s) LISTENING)
  && negb (AppStatus_eqb (status s) OPTIMIZING).

Definition can_stop (s : State) : bool :=
  voice_panel s && AppStatus_eqb (status s) LISTENING.

Definition can_refine (s : State) : bool :=
  match v with
  | V1 => negb (is_voice (inputMode s))
          && truthy (trim (manualText s))
          && negb (AppStatus_eqb (status s) OPTIMIZING)
  | V2 => false
  end.

Definition can_regenerate (s : State) : bool :=
  match v with
  | V1 => false
  | V2 => shows_result s || AppStatus_eqb (status s) ERROR
  end.

Definition can_dismiss (s : State) : bool :=
  match v with
  | V1 => shows_result s || AppStatus_eqb (status s) ERROR
  | V2 => shows_result s
  end.

Definition is_V1 : bool := match v with V1 => true | V2 => false end.

(** Run a handler on the component; [k] files what it returned.  A
    handler that throws leaves the state it reached. *)
Definition deliver {A} (m : M A) (k : A -> Sys -> Sys) (s : Sys) : Sys :=
  match m (world s) with
  | (Returned a, w') =>
      k a {| world := w'; connections := connections s;
             refinements := refinements s; starts := starts s |}
  | (Raised _, w') =>
      {| world := w'; connections := connections s;
         refinements := refinements s; starts := starts s |}
  end.

Definition keep {A} (_ : A) (s : Sys) : Sys := s.

Definition add_connection (oc : option Connection) (s : Sys) : Sys :=
  match oc with
  | Some c => {| world := world s; connections := connections s ++ [c];
                 refinements := refinements s; starts := starts s |}
  | None => s
  end.

Definition add_refinement (or : option Refinement) (s : Sys) : Sys :=
  match or with
  | Some r => {| world := world s; connections := connections s;
                 refinements := refinements s ++ [Some r];
                 starts := starts s |}
  | None => s
  end.

Definition set_refinement (n : nat) (r : option Refinement) (s : Sys) : Sys :=
  {| world := world s; connections := connections s;
     refinements := replace_nth n r (refinements s); starts := starts s |}.

(** A new run of [startListening], not yet suspended anywhere. *)
Definition open_start (s : Sys) : Sys :=
  {| world := world s; connections := connections s;
     refinements := refinements s; starts := starts s ++ [None] |}.

Definition set_start (n : nat) (r : option Start) (s : Sys) : Sys :=
  {| world := world s; connections := connections s;
     refinements := refinements s; starts := replace_nth n r (starts s) |}.

(** File how a stretch of run [n] ended. *)
Definition file_start (n : nat) (rendered : AppStatus) (next : StartNext)
    (s : Sys) : Sys :=
  match next with
  | Suspended p =>
      set_start n (Some {| start_status := rendered; start_point := p |}) s
  | Installed c => add_connection (Some c) s
  | Over => s
  end.

Definition guard (b : bool) (s : Sys) : option Sys :=
  if b then Some s else None.

Definition suspended_run (r : nat) (s : Sys) : option Refinement :=
  match nth_error (refinements s) r with
  | Some (Some rf) => Some rf
  | _ => None
  end.

Definition suspended_start (k : nat) (s : Sys) : option Start :=
  match nth_error (starts s) k with
  | Some (Some st) => Some st
  | _ => None
  end.

Definition step (e : Event) (s : Sys) : option Sys :=
  let st := state (world s) in
  match e with
  | Mounted o => Some (deliver (checkKey host o) keep s)
  | ClickStart env =>
      guard (can_start st) (deliver (startListening v host env) add_connection s)
  | BeginStart env =>
      guard (can_start st)
            (deliver (startListening_begin v host env)
                     (file_start (length (starts s)) (status st))
                     (open_start s))
  | ResumeStart k env =>
      match suspended_start k s with
      | Some sr =>
          Some (deliver (startListening_resume v host (start_status sr)
                           (start_point sr) env)
                        (file_start k (start_status sr))
                        (set_start k None s))
      | None => None
      end
  | ClickStop =>
      guard (can_stop st) (deliver (stopListening v) add_refinement s)
  | ClickRefine env =>
      guard (can_refine st)
            (deliver (handleManualSubmit host env) add_refinement s)
  | ClickRegenerate =>
      guard (can_regenerate st) (deliver handleRegenerate add_refinement s)
  | ClickDismiss =>
      guard (can_dismiss st) (deliver (setStatus IDLE) keep s)
  | ClickSelectKey =>
      guard (needsApiKey st) (deliver (handleSelectKey host) keep s)
  | ChangeInputMode m =>
      guard (is_V1 && negb (AppStatus_eqb (status st) LISTENING))
            (deliver (setInputMode m) keep s)
  | ChangeManualText t =>
      guard (is_V1 && negb (is_voice (inputMode st)))
            (deliver (setManualText t) keep s)
  | KeyFlowSettled o =>
      match keyFlows (world s) with
      | O => None
      | S _ =>
          Some (deliver (modify (with_keyFlows pred) ;;
                         handleSelectKey_settle v o) keep s)
      end
  | SessionOpen k node =>
      match nth_error (connections s) k with
      | Some _ => Some (deliver (onopen node) keep s)
      | None => None
      end
  | AudioProcess k =>
      match nth_error (connections s) k with
      | Some c => Some (deliver (onaudioprocess c) keep s)
      | None => None
      end
  | SessionMessage k m =>
      match nth_error (connections s) k with
      | Some _ => Some (deliver (onmessage m) keep s)
      | None => None
      end
  | SessionError k e =>
      match nth_error (connections s) k with
      | Some _ => Some (deliver (onerror v host e) keep s)
      | None => None
      end
  | SessionClose k =>
      match nth_error (connections s) k with
      | Some c => Some (deliver (onclose v c) add_refinement s)
      | None => None
      end
  | StreamChunk r c =>
      match suspended_run r s with
      | Some rf =>
          Some (deliver (optimizePrompt_chunk v rf c)
                        (fun rf' => set_refinement r (Some rf')) s)
      | None => None
      end
  | StreamExhausted r now_id now_timestamp =>
      match suspended_run r s with
      | Some rf =>
          Some (deliver (optimizePrompt_finish rf now_id now_timestamp)
                        keep (set_refinement r None s))
      | None => None
      end
  | StreamFailed r e =>
      match suspended_run r s with
      | Some rf =>
          Some (deliver (optimizePrompt_catch v host e)
                        keep (set_refinement r None s))
      | None => None
      end
  end.

Fixpoint run (evs : list Event) (s : Sys) : option Sys :=
  match evs with
  | [] => Some s
  | e :: rest =>
      match step e s with
      | Some s' => run rest s'
      | None => None
      end
  end.

End Machine.

(** ** Vocabulary of the properties *)

(** The calls [stopListeningInternal] makes for the resources the refs
    hold, newest first. *)
Definition release_calls (r : Refs) : list Call :=
  match audioContextRef r with
  | Some c =>
      match ctx_state c with
      | closed => []
      | _ => [call_context_close (ctx_id c)]
      end
  | None => []
  end
  ++ match streamRef r with
     | Some s => rev (map call_track_stop (getTracks s))
     | None => []
     end
  ++ match scriptProcessorRef r with
     | Some n => [call_disconnect (node_id n)]
     | None => []
     end
  ++ match sessionRef r with
     | Some s => [call_session_close (session_id s)]
     | None => []
     end.

Definition clear_refs (r : Refs) : Refs :=
  {| audioContextRef := None; streamRef := None; scriptProcessorRef := None;
     transcriptRef := transcriptRef r; sessionRef := None |}.

Definition released (r : Refs) : Prop :=
  sessionRef r = None /\ scriptProcessorRef r = None
  /\ streamRef r = None /\ audioContextRef r = None.

(** A handler that leaves the status other than Listening, the four
    resource refs null, and the release call made for every resource the
    refs held when it began. *)
Definition leaves_listening_released {A} (m : M A) (w : World) : Prop :=
  status (state (exec m w)) <> LISTENING
  /\ released (refs (exec m w))
  /\ (forall c, In c (release_calls (refs w)) -> In c (calls (exec m w))).

(** The calls that release a resource. *)
Definition is_release_call (c : Call) : bool :=
  match c with
  | call_session_close _ | call_disconnect _ | call_track_stop _
  | call_context_close _ => true
  | _ => false
  end.

Definition releases (w : World) : list Call :=
  filter is_release_call (calls w).

(** What one chunk makes the loop of [optimizePrompt] append to
    [fullText]: in the second revision, for a chunk without text, the
    letters of [undefined]. *)
Definition delta (v : Variant) (c : GenerateContentResponse) : jsstring :=
  match v with
  | V1 => match text c with Some t => t | None => [] end
  | V2 => ToString (text c)
  end.

(** The delta a chunk of the stream carries, as the specification has it:
    its text; a chunk without text carries none. *)
Definition stream_delta (c : GenerateContentResponse) : jsstring :=
  match text c with Some t => t | None => [] end.

Definition has_text (c : GenerateContentResponse) : bool :=
  match text c with Some _ => true | None => false end.

(** The value of [fullText] after the loop has consumed [chunks]. *)
Definition accumulated (v : Variant) (chunks : list GenerateContentResponse)
    : jsstring :=
  match result (optimizePrompt_loop v {| rawInput := []; fullText := [] |}
                  chunks) initial_world with
  | Returned r => fullText r
  | Raised _ => []
  end.

Definition listening_with (buffer : jsstring) : World :=
  with_refs (put_transcriptRef buffer)
    (with_state (put_status LISTENING) initial_world).

Definition entity_not_found_error : JsError :=
  {| message := Some (utf16 "Requested entity was not found.") |}.

Definition bare_host : Host :=
  {| host_hasSelectedApiKey := false; host_openSelectKey := false |}.

Definition studio_host : Host :=
  {| host_hasSelectedApiKey := true; host_openSelectKey := true |}.

(** [m] relates every world to the one it leaves behind by [P]. *)
Definition preserves (P : World -> World -> Prop) {A} (m : M A) : Prop :=
  forall w, P w (exec m w).

Definition same_history (w w' : World) : Prop :=
  history (state w') = history (state w).

Definition same_transcriptRef (w w' : World) : Prop :=
  transcriptRef (refs w') = transcriptRef (refs w).

(** Most handlers touch neither. *)
Definition quiet (w w' : World) : Prop :=
  same_history w w' /\ same_transcriptRef w w'.

(** The item a step stores, if it stores one. *)
Definition stored_by (e : Event) (s : Sys) : list HistoryItem.t :=
  match e with
  | StreamExhausted r now_id now_timestamp =>
      match suspended_run r s with
      | Some rf =>
          [{| HistoryItem.id := Number_toString now_id;
              HistoryItem.timestamp := now_timestamp;
              HistoryItem.rawInput := rawInput rf;
              HistoryItem.optimizedPrompt := fullText rf |}]
      | None => []
      end
  | _ => []
  end.

(** The clock reading a step turns into an id. *)
Definition id_clock (e : Event) : list Z :=
  match e with
  | StreamExhausted _ now_id _ => [now_id]
  | _ => []
  end.

Definition refine_text (t : string) : list Event :=
  [ChangeManualText (utf16 t);
   ClickRefine {| env_hasKey := Returned true; env_selectKey := Returned tt |}].

(** What [onmessage] appends to the buffer for a message: for a
    transcription without text, the letters of [undefined]. *)
Definition appended_by (m : LiveServerMessage) : jsstring :=
  match serverContent m with
  | Some sc =>
      match inputTranscription sc with
      | Some tr => ToString (transcription_text tr)
      | None => []
      end
  | None => []
  end.

Definition fragment (t : jsstring) : LiveServerMessage :=
  {| serverContent :=
       Some {| inputTranscription :=
                 Some {| transcription_text := Some t |} |} |}.

(** What the handler of an event appends to the buffer. *)
Definition appended_at (e : Event) : jsstring :=
  match e with
  | SessionMessage _ m => appended_by m
  | _ => []
  end.

Definition is_start (e : Event) : bool :=
  match e with
  | ClickStart _ | BeginStart _ | ResumeStart _ _ => true
  | _ => false
  end.

(** The transcript fragment an event delivers, as the specification has
    it: the text of the input transcription in a message of the session.
    Any other event, and a transcription that carries no text, delivers
    none. *)
Definition received_fragment (e : Event) : option jsstring :=
  match e with
  | SessionMessage _ m =>
      match serverContent m with
      | Some sc =>
          match inputTranscription sc with
          | Some tr => transcription_text tr
          | None => None
          end
      | None => None
      end
  | _ => None
  end.

(** The fragments a sequence of events delivers, in order of arrival. *)
Definition received_fragments (evs : list Event) : list jsstring :=
  flat_map (fun e => match received_fragment e with
                     | Some t => [t]
                     | None => []
                     end) evs.

(** A message whose transcription carries no text. *)
Definition transcription_without_text (e : Event) : bool :=
  match e with
  | SessionMessage _ m =>
      match serverContent m with
      | Some sc =>
          match inputTranscription sc with
          | Some tr =>
              match transcription_text tr with
              | Some _ => false
              | None => true
              end
          | None => false
          end
      | None => false
      end
  | _ => false
  end.

(** Every value [m] can return satisfies [Q]. *)
Definition yields {A} (Q : A -> Prop) (m : M A) : Prop :=
  forall w a w', m w = (Returned a, w') -> Q a.

Definition never_rendered_listening (s : Sys) : Prop :=
  Forall (fun c => conn_status c <> LISTENING) (connections s)
  /\ Forall (fun o => forall sr, o = Some sr ->
                                 start_status sr <> LISTENING) (starts s).

Definition studio_env : StartEnv :=
  {| env_key := {| env_hasKey := Returned true; env_selectKey := Returned tt |};
     env_audioContext := Returned {| ctx_id := 1; ctx_state := running |};
     env_resume := Returned tt;
     env_getUserMedia := Returned {| stream_id := 2; getTracks := [7] |};
     env_session := {| session_id := 3; close_raises := None |} |}.

Definition capture (fragments : list jsstring) : list Event :=
  ClickStart studio_env
  :: SessionOpen 0 {| node_id := 5 |}
  :: AudioProcess 0
  :: map (fun t => SessionMessage 0 (fragment t)) fragments.

Definition passes (P : jsstring -> Prop) (or : option Refinement) : Prop :=
  forall r, or = Some r -> P (rawInput r).

Definition trimmed_nonempty (t : jsstring) : Prop :=
  t <> [] /\ trim t = t.

Definition nonblank (t : jsstring) : Prop := trim t <> [].

Definition capturing_world : World :=
  {| state := put_status LISTENING (state initial_world);
     refs := {| audioContextRef := Some {| ctx_id := 1; ctx_state := running |};
                streamRef := Some {| stream_id := 2; getTracks := [7; 8] |};
                scriptProcessorRef := Some {| node_id := 5 |};
                transcriptRef := utf16 "Write a poem";
                sessionRef := Some {| session_id := 3;
                                      close_raises :=
                                        Some {| message := None |} |} |};
     calls := [];
     keyFlows := 0 |}.

(** The answers a second start receives: another context, another
    stream, another session. *)
Definition second_env : StartEnv :=
  {| env_key := {| env_hasKey := Returned true; env_selectKey := Returned tt |};
     env_audioContext := Returned {| ctx_id := 11; ctx_state := running |};
     env_resume := Returned tt;
     env_getUserMedia := Returned {| stream_id := 12; getTracks := [17] |};
     env_session := {| session_id := 13; close_raises := None |} |}.

(** The refs while the capture of [studio_env] runs. *)
Definition capture_refs (buffer : jsstring) : Refs :=
  {| audioContextRef := Some {| ctx_id := 1; ctx_state := running |};
     streamRef := Some {| stream_id := 2; getTracks := [7] |};
     scriptProcessorRef := Some {| node_id := 5 |};
     transcriptRef := buffer;
     sessionRef := Some {| session_id := 3; close_raises := None |} |}.

(** ** Vocabulary of the further properties *)

(** The statuses the handler of an event can set. *)
Definition may_set (e : Event) : list AppStatus :=
  match e with
  | ClickStart _ | BeginStart _ | ResumeStart _ _
  | SessionError _ _ | StreamFailed _ _ => [ERROR]
  | ClickStop | SessionClose _ => [OPTIMIZING; IDLE]
  | ClickRefine _ | ClickRegenerate => [OPTIMIZING]
  | ClickDismiss => [IDLE]
  | SessionOpen _ _ => [LISTENING]
  | StreamExhausted _ _ _ => [FINISHED]
  | _ => []
  end.

(** The status is the one before, or one of [allowed]. *)
Definition status_within (allowed : list AppStatus) (w w' : World) : Prop :=
  status (state w') = status (state w) \/ In (status (state w')) allowed.

(** The calls made to [window.aistudio]. *)
Definition is_host_call (c : Call) : bool :=
  match c with
  | call_hasSelectedApiKey | call_openSelectKey => true
  | _ => false
  end.

Definition host_calls (w : World) : list Call :=
  filter is_host_call (calls w).

Definition same_host_calls (w w' : World) : Prop :=
  host_calls w' = host_calls w.

(** [startListening] in three parts: the key check before the reset, the
    reset of the display and the buffer, and the guarded capture. *)
Definition start_gate (v : Variant) (host : Host) (env : StartEnv) : M unit :=
  match v with
  | V1 => key_check v host (env_key env)
  | V2 =>
      needs <- get (fun w => needsApiKey (state w)) ;;
      if needs then handleSelectKey_awaited v host (env_selectKey (env_key env))
      else ret tt
  end.

Definition start_reset (w : World) : World :=
  with_refs (put_transcriptRef [])
    (with_state (put_optimizedPrompt [])
       (with_state (put_transcript [])
          (with_state (put_error None) w))).

Definition start_capture (v : Variant) (env : StartEnv)
    (rendered : AppStatus) : M (option Connection) :=
  tryCatch
    (c <- startListening_try v env rendered ;; ret (Some c))
    (fun _ => handleError (msg_microphone v) ;; ret None).

(** A run of [startListening] taken from the end of one stretch to the
    end of the next, with nothing in between. *)
Definition startListening_continue (v : Variant) (host : Host)
    (rendered : AppStatus) (env : StartEnv) (next : StartNext)
    : M StartNext :=
  match next with
  | Suspended p => startListening_resume v host rendered p env
  | _ => ret next
  end.

Definition installed (next : StartNext) : option Connection :=
  match next with Installed c => Some c | _ => None end.

(** The stretches of one run, one straight after the other. *)
Definition startListening_stretches (v : Variant) (host : Host)
    (env : StartEnv) : M (option Connection) :=
  rendered <- get (fun w => status (state w)) ;;
  n0 <- startListening_begin v host env ;;
  n1 <- startListening_continue v host rendered env n0 ;;
  n2 <- startListening_continue v host rendered env n1 ;;
  n3 <- startListening_continue v host rendered env n2 ;;
  n4 <- startListening_continue v host rendered env n3 ;;
  ret (installed n4).

(** The [catch] of [startListening] has run: the status is Error with
    the microphone message, the four resource refs are null, and the
    context, the node and the session the refs held have had their
    release calls. *)
Definition reports_and_releases (v : Variant) (w w' : World) : Prop :=
  status (state w') = ERROR
  /\ error (state w') = Some (msg_microphone v)
  /\ released (refs w')
  /\ (forall c, In c (release_calls (put_streamRef None (refs w))) ->
                In c (calls w')).

(** The refs of [w1] hold the context, the node and the session that
    those of [w] hold. *)
Definition same_context_node_session (w w1 : World) : Prop :=
  audioContextRef (refs w1) = audioContextRef (refs w)
  /\ scriptProcessorRef (refs w1) = scriptProcessorRef (refs w)
  /\ sessionRef (refs w1) = sessionRef (refs w).

(** The stretch resumed at [p] has installed the callbacks [c] and left
    [w'] of [w]. *)
Definition installs_over (env : StartEnv) (rendered : AppStatus)
    (p : StartPoint) (c : Connection) (w w' : World) : Prop :=
  exists created,
    p = at_getUserMedia created
    /\ env_getUserMedia env = Returned (conn_stream c)
    /\ conn_status c = rendered
    /\ conn_session c = env_session env
    /\ state w' = state w
    /\ transcriptRef (refs w') = transcriptRef (refs w)
    /\ streamRef (refs w') = Some (conn_stream c)
    /\ scriptProcessorRef (refs w') = scriptProcessorRef (refs w)
    /\ sessionRef (refs w') = sessionRef (refs w)
    /\ calls w'
       = call_live_connect (session_id (env_session env)) :: calls w
    /\ match created with
       | Some audioCtx =>
           conn_audioCtx c = audioCtx
           /\ audioContextRef (refs w') = audioContextRef (refs w)
       | None =>
           env_audioContext env = Returned (conn_audioCtx c)
           /\ audioContextRef (refs w') = Some (conn_audioCtx c)
       end.

(** The displayed transcript and the buffer behind it. *)
Definition same_display (w w' : World) : Prop :=
  transcript (state w') = transcript (state w)
  /\ transcriptRef (refs w') = transcriptRef (refs w).

Definition display_shows_buffer (w : World) : Prop :=
  transcript (state w) = transcriptRef (refs w).

Definition keeps_display_shown (w w' : World) : Prop :=
  display_shows_buffer w -> display_shows_buffer w'.

(** State and refs are untouched; only the call log may grow. *)
Definition only_calls_added (w w' : World) : Prop :=
  state w' = state w /\ refs w' = refs w /\ keyFlows w' = keyFlows w
  /\ exists added, calls w' = added ++ calls w.

Definition same_optimizedPrompt (w w' : World) : Prop :=
  optimizedPrompt (state w') = optimizedPrompt (state w).

Definition same_refs_and_history (w w' : World) : Prop :=
  refs w' = refs w /\ history (state w') = history (state w)
  /\ status (state w') = status (state w).

(** A [StartEnv] whose key answers are [k]; the rest is never asked. *)
Definition key_only (k : KeyEnv) : StartEnv :=
  {| env_key := k;
     env_audioContext := Raised {| message := None |};
     env_resume := Returned tt;
     env_getUserMedia := Raised {| message := None |};
     env_session := {| session_id := 0; close_raises := None |} |}.

(** Every suspended run and every stored item has an input with [P]. *)
Definition inputs_satisfy (P : jsstring -> Prop) (s : Sys) : Prop :=
  Forall (passes P) (refinements s)
  /\ Forall (fun item => P (HistoryItem.rawInput item))
            (history (state (world s))).

(** The chunks an event, and a sequence of events, deliver to run [k]. *)
Definition chunk_to (k : nat) (e : Event) : list GenerateContentResponse :=
  match e with
  | StreamChunk r c => if Nat.eqb r k then [c] else []
  | _ => []
  end.

Definition chunks_to (k : nat) (evs : list Event)
    : list GenerateContentResponse :=
  flat_map (chunk_to k) evs.

(** Every suspended run has accumulated exactly the chunks delivered to
    it, and no chunk was delivered to a run that does not exist yet. *)
Definition runs_track_chunks (v : Variant) (evs : list Event) (s : Sys)
    : Prop :=
  (forall k rf, suspended_run k s = Some rf ->
     fullText rf = List.concat (map (delta v) (chunks_to k evs)))
  /\ (forall k, length (refinements s) <= k -> chunks_to k evs = []).

(** A run that has just begun has accumulated nothing. *)
Definition begins_empty (o : option Refinement) : Prop :=
  forall r, o = Some r -> fullText r = [].

(** The [session.close()] calls made so far. *)
Definition is_session_close (c : Call) : bool :=
  match c with call_session_close _ => true | _ => false end.

Definition session_closes (w : World) : list Call :=
  filter is_session_close (calls w).

(** While no session handle is held, none is closed. *)
Definition closes_nothing_unheld (w w' : World) : Prop :=
  sessionRef (refs w) = None ->
  sessionRef (refs w') = None /\ session_closes w' = session_closes w.

Definition is_audio_frame (e : Event) : bool :=
  match e with AudioProcess _ => true | _ => false end.

(** * Properties *)

(** ** Unfolding handlers *)

Ltac js_unfold :=
  unfold exec, result, setStatus, setInputMode, setTranscript, setManualText,
    setOptimizedPrompt, setHistory, setError, setNeedsApiKey, call, await,
    tryCatch, bind, ret, raise, get, modify in *.

Lemma exec_unfold {A} (m : M A) (w : World) : exec m w = snd (m w).
Proof. reflexivity. Qed.

(** ** Teardown *)

Lemma forEach_track_stop (tracks : list nat) (w : World) :
  forEach tracks (fun track => call (call_track_stop track)) w
  = (Returned tt,
     with_calls (app (rev (map call_track_stop tracks))) w).
Proof.
  revert w; induction tracks as [|t tracks IH]; intros w.
  - destruct w; reflexivity.
  - cbn [forEach]. unfold bind at 1. unfold call at 1, modify at 1.
    rewrite IH. destruct w as [st rf cs kf]. unfold with_calls; cbn.
    now rewrite <- app_assoc.
Qed.

Lemma stopListeningInternal_spec (w : World) :
  stopListeningInternal w
  = (Returned tt,
     {| state := state w; refs := clear_refs (refs w);
        calls := release_calls (refs w) ++ calls w;
        keyFlows := keyFlows w |}).
Proof.
  destruct w as [st [ac sr sp tr se] cs kf].
  unfold stopListeningInternal, release_calls, clear_refs, session_close.
  destruct se as [[sid [e|]]|], sp as [[n]|], sr as [[sid' tracks]|],
    ac as [[cid []]|];
    js_unfold; cbn; rewrite ?forEach_track_stop; cbn;
    unfold with_calls, with_refs; cbn;
    rewrite <- ?app_assoc; cbn; try reflexivity.
Qed.

Lemma release_calls_clear (r : Refs) : release_calls (clear_refs r) = [].
Proof. reflexivity. Qed.

Lemma clear_refs_idem (r : Refs) : clear_refs (clear_refs r) = clear_refs r.
Proof. reflexivity. Qed.

Lemma released_clear (r : Refs) : released (clear_refs r).
Proof. repeat split. Qed.

Lemma handleError_spec (msg : jsstring) (w : World) :
  handleError msg w
  = (Returned tt,
     {| state := put_status ERROR (put_error (Some msg) (state w));
        refs := clear_refs (refs w);
        calls := release_calls (refs w) ++ calls w;
        keyFlows := keyFlows w |}).
Proof.
  unfold handleError. js_unfold. rewrite stopListeningInternal_spec.
  destruct w; reflexivity.
Qed.

Lemma handleSelectKey_spec (host : Host) (w : World) :
  handleSelectKey host w
  = (Returned tt,
     if host_openSelectKey host
     then with_keyFlows S (with_calls (cons call_openSelectKey) w)
     else w).
Proof.
  unfold handleSelectKey, handleSelectKey_open.
  destruct (host_openSelectKey host); reflexivity.
Qed.

Lemma optimizePrompt_begin_spec (v : Variant) (input : jsstring) (w : World) :
  optimizePrompt_begin v input w
  = (Returned {| rawInput := input; fullText := [] |},
     {| state :=
          (match v with V1 => put_error None | V2 => fun s => s end)
            (put_optimizedPrompt [] (put_status OPTIMIZING (state w)));
        refs := refs w;
        calls := call_generateContentStream (contents v input) :: calls w;
        keyFlows := keyFlows w |}).
Proof. destruct v, w; reflexivity. Qed.

(** C8.  The teardown [stopListeningInternal] never throws, whatever
    [session.close()] does (the error is swallowed); running it twice in a
    row leaves exactly the world one run leaves, calls included; and on a
    component whose four resource refs are null it changes nothing. *)
Theorem stopListeningInternal_idempotent_total (w : World) :
  result stopListeningInternal w = Returned tt
  /\ exec (stopListeningInternal ;; stopListeningInternal) w
     = exec stopListeningInternal w
  /\ exec stopListeningInternal (with_refs clear_refs w)
     = with_refs clear_refs w.
Proof.
  unfold result, exec, bind.
  rewrite !stopListeningInternal_spec. cbn beta iota.
  rewrite ?stopListeningInternal_spec. cbn [fst snd].
  repeat split; destruct w as [st rf cs kf]; cbn; reflexivity.
Qed.

Example close_error_swallowed :
  let s := {| session_id := 3; close_raises := Some {| message := None |} |} in
  let w := with_refs (put_sessionRef (Some s)) initial_world in
  result (session_close s) w = Raised {| message := None |}
  /\ stopListeningInternal w
     = (Returned tt, with_calls (cons (call_session_close 3)) initial_world).
Proof. split; reflexivity. Qed.

Lemma stopListening_spec (v : Variant) (w : World) :
  stopListening v w
  = let t := trim (transcriptRef (refs w)) in
    let w1 := {| state := state w; refs := clear_refs (refs w);
                 calls := release_calls (refs w) ++ calls w;
                 keyFlows := keyFlows w |} in
    if truthy t
    then (Returned (Some {| rawInput := t; fullText := [] |}),
          exec (optimizePrompt_begin v t) w1)
    else (Returned None, with_state (put_status IDLE) w1).
Proof.
  unfold stopListening, bind at 1, get at 1. cbn beta iota.
  unfold bind at 1. rewrite stopListeningInternal_spec. cbn beta iota zeta.
  destruct (truthy (trim (transcriptRef (refs w)))).
  - unfold bind, exec. rewrite optimizePrompt_begin_spec. reflexivity.
  - reflexivity.
Qed.

Lemma onerror_spec (v : Variant) (host : Host) (e : JsError) (w : World) :
  onerror v host e w
  = handleError (msg_voice_error v)
      (if message_includes e entity_not_found
       then exec (handleSelectKey host) (with_state (put_needsApiKey true) w)
       else w).
Proof.
  unfold onerror, bind at 1.
  destruct (message_includes e entity_not_found).
  - unfold bind at 1, setNeedsApiKey, modify at 1. unfold exec.
    rewrite handleSelectKey_spec. reflexivity.
  - reflexivity.
Qed.

Lemma handleSelectKey_refs (host : Host) (w : World) :
  refs (exec (handleSelectKey host) w) = refs w.
Proof.
  unfold exec. rewrite handleSelectKey_spec.
  destruct (host_openSelectKey host); reflexivity.
Qed.

Lemma handleSelectKey_calls (host : Host) (w : World) (c : Call) :
  In c (calls w) -> In c (calls (exec (handleSelectKey host) w)).
Proof.
  unfold exec. rewrite handleSelectKey_spec.
  destruct (host_openSelectKey host); cbn; auto.
Qed.

Lemma stopListening_releases (v : Variant) (w : World) :
  released (refs (exec (stopListening v) w))
  /\ (forall c, In c (release_calls (refs w)) ->
                In c (calls (exec (stopListening v) w))).
Proof.
  unfold exec. rewrite stopListening_spec. cbn zeta.
  destruct (truthy _).
  - unfold exec. rewrite optimizePrompt_begin_spec. cbn.
    split; [apply released_clear|]. intros c H. right. apply in_or_app; auto.
  - cbn. split; [apply released_clear|]. intros c H. apply in_or_app; auto.
Qed.

Lemma handleError_releases (msg : jsstring) (w : World) :
  released (refs (exec (handleError msg) w))
  /\ (forall c, In c (release_calls (refs w)) ->
                In c (calls (exec (handleError msg) w))).
Proof.
  unfold exec. rewrite handleError_spec. cbn.
  split; [apply released_clear|]. intros c H. apply in_or_app; auto.
Qed.

Lemma onerror_releases (v : Variant) (host : Host) (e : JsError) (w : World) :
  released (refs (exec (onerror v host e) w))
  /\ (forall c, In c (release_calls (refs w)) ->
                In c (calls (exec (onerror v host e) w))).
Proof.
  rewrite (exec_unfold (onerror v host e)), onerror_spec.
  rewrite <- exec_unfold.
  destruct (message_includes e entity_not_found).
  - destruct (handleError_releases (msg_voice_error v)
                (exec (handleSelectKey host)
                      (with_state (put_needsApiKey true) w))) as [R C].
    split; [exact R|]. intros c H. apply C.
    now rewrite handleSelectKey_refs.
  - apply handleError_releases.
Qed.

Lemma exec_then_ret {A} (m : M A) (w : World) :
  exec (m ;; ret tt) w = exec m w.
Proof.
  unfold exec, bind, ret. destruct (m w) as [[a|e] w']; reflexivity.
Qed.

(** The stop button ([stopListening]), the [catch] blocks
    ([handleError]) and [onerror] do release: from any state whatever,
    each of them leaves the status other than Listening, the four
    resource refs null, and has made the release call for every resource
    the refs held ([close] on the session, [disconnect] on the node,
    [stop] on each track, [close] on a context that is not closed). *)
Lemma stop_and_error_handlers_release
    (v : Variant) (host : Host) (w : World) :
  leaves_listening_released (stopListening v) w
  /\ (forall msg, leaves_listening_released (handleError msg) w)
  /\ (forall e, leaves_listening_released (onerror v host e) w).
Proof.
  unfold leaves_listening_released. split; [|split].
  - split; [|apply stopListening_releases].
    unfold exec. rewrite stopListening_spec. cbn zeta.
    destruct (truthy _).
    + unfold exec. rewrite optimizePrompt_begin_spec.
      destruct v; cbn; discriminate.
    + cbn. discriminate.
  - intros msg. split; [|apply handleError_releases].
    unfold exec. rewrite handleError_spec. cbn. discriminate.
  - intros e. split; [|apply onerror_releases].
    rewrite (exec_unfold (onerror v host e)), onerror_spec.
    rewrite handleError_spec. cbn. discriminate.
Qed.

(** C1.  The component can be left with a capture that is never
    released.  (1) The session closes while the status is Listening: the
    [onclose] callback does nothing, so the context, the stream, the node
    and the session stay in the refs and no release call is made.  (2) In
    the first revision, text submitted while the status is Listening
    takes the status to Optimizing with every resource still held and no
    release call made.  (3) A second start made before the first has
    opened overwrites the refs: the stop that follows releases the second
    capture only, the context and the stream of the first are never
    released, and the start button is enabled again. *)
Theorem capture_left_unreleased :
  (forall v, exists s,
     run v studio_host (capture [utf16 "Write a poem"]) initial = Some s
     /\ status (state (world s)) = LISTENING
     /\ step v studio_host (SessionClose 0) s = Some s
     /\ refs (world s) = capture_refs (utf16 "Write a poem")
     /\ releases (world s) = [])
  /\ (exists s s',
        run V1 studio_host
          [ClickStart studio_env;
           ChangeInputMode mode_text;
           ChangeManualText (utf16 "Write a poem");
           SessionOpen 0 {| node_id := 5 |};
           AudioProcess 0] initial = Some s
        /\ status (state (world s)) = LISTENING
        /\ step V1 studio_host
             (ClickRefine {| env_hasKey := Returned true;
                             env_selectKey := Returned tt |}) s = Some s'
        /\ status (state (world s')) = OPTIMIZING
        /\ refs (world s') = capture_refs []
        /\ releases (world s') = [])
  /\ (forall v, exists s,
        run v studio_host
          [ClickStart studio_env;
           ClickStart second_env;
           SessionOpen 1 {| node_id := 15 |};
           AudioProcess 1;
           ClickStop] initial = Some s
        /\ status (state (world s)) = IDLE
        /\ released (refs (world s))
        /\ releases (world s)
           = [call_context_close 11; call_track_stop 17;
              call_disconnect 15; call_session_close 13]
        /\ can_start v (state (world s)) = true).
Proof.
  split; [|split].
  - intros v. destruct v; eexists; (split; [vm_compute; reflexivity|]);
      repeat split; vm_compute; reflexivity.
  - do 2 eexists. split; [vm_compute; reflexivity|].
    split; [reflexivity|]. split; [vm_compute; reflexivity|].
    repeat split; vm_compute; reflexivity.
  - intros v. destruct v; eexists; (split; [vm_compute; reflexivity|]);
      repeat split; vm_compute; reflexivity.
Qed.

(** The third case again, with the two runs of [startListening]
    overlapping at their awaits (first revision, no host): the second
    run stores its context while the first waits for the microphone, and
    its stream once the first has stored its own. *)
Example overlapping_starts_leave_the_first_capture_unreleased :
  exists s,
    run V1 bare_host
      [BeginStart studio_env;
       BeginStart second_env;
       ResumeStart 0 studio_env;
       ResumeStart 1 second_env;
       SessionOpen 1 {| node_id := 15 |};
       AudioProcess 1;
       ClickStop] initial = Some s
    /\ map conn_stream (connections s)
       = [{| stream_id := 2; getTracks := [7] |};
          {| stream_id := 12; getTracks := [17] |}]
    /\ released (refs (world s))
    /\ releases (world s)
       = [call_context_close 11; call_track_stop 17;
          call_disconnect 15; call_session_close 13].
Proof.
  eexists. split; [vm_compute; reflexivity|].
  repeat split; vm_compute; reflexivity.
Qed.

(** ** Refinement runs *)

Lemma with_state_put_optimizedPrompt_twice (p q : jsstring) (w : World) :
  with_state (put_optimizedPrompt q) (with_state (put_optimizedPrompt p) w)
  = with_state (put_optimizedPrompt q) w.
Proof. destruct w as [[]]; reflexivity. Qed.

Lemma optimizePrompt_chunk_spec (v : Variant) (r : Refinement)
    (c : GenerateContentResponse) (w : World) :
  exists p,
    optimizePrompt_chunk v r c w
    = (Returned {| rawInput := rawInput r;
                   fullText := fullText r ++ delta v c |},
       with_state (put_optimizedPrompt p) w).
Proof.
  destruct v; unfold optimizePrompt_chunk, delta.
  - destruct (text c) as [[|a t]|]; cbn.
    + exists (optimizedPrompt (state w)). rewrite app_nil_r.
      destruct r, w as [[]]; reflexivity.
    + eexists; reflexivity.
    + exists (optimizedPrompt (state w)). rewrite app_nil_r.
      destruct r, w as [[]]; reflexivity.
  - eexists; reflexivity.
Qed.

Lemma optimizePrompt_loop_spec (v : Variant)
    (chunks : list GenerateContentResponse) :
  forall (r : Refinement) (w : World),
  exists p,
    optimizePrompt_loop v r chunks w
    = (Returned {| rawInput := rawInput r;
                   fullText := fullText r ++ List.concat (map (delta v) chunks) |},
       with_state (put_optimizedPrompt p) w).
Proof.
  induction chunks as [|c chunks IH]; intros r w.
  - exists (optimizedPrompt (state w)). cbn. rewrite app_nil_r.
    destruct r, w as [[]]; reflexivity.
  - destruct (optimizePrompt_chunk_spec v r c w) as [p Hp].
    destruct (IH {| rawInput := rawInput r;
                    fullText := fullText r ++ delta v c |}
                 (with_state (put_optimizedPrompt p) w)) as [q Hq].
    exists q. cbn [optimizePrompt_loop]. unfold bind at 1. rewrite Hp, Hq.
    cbn [rawInput fullText map List.concat].
    now rewrite with_state_put_optimizedPrompt_twice, app_assoc.
Qed.

Lemma accumulated_concat (v : Variant)
    (chunks : list GenerateContentResponse) :
  accumulated v chunks = List.concat (map (delta v) chunks).
Proof.
  unfold accumulated, result.
  destruct (optimizePrompt_loop_spec v chunks
              {| rawInput := []; fullText := [] |} initial_world) as [p Hp].
  now rewrite Hp.
Qed.

Lemma optimizePrompt_catch_spec (v : Variant) (host : Host) (e : JsError)
    (w : World) :
  exists msg w0,
    optimizePrompt_catch v host e w = handleError msg w0
    /\ history (state w0) = history (state w)
    /\ refs w0 = refs w.
Proof.
  unfold optimizePrompt_catch.
  destruct v; destruct (message_includes e entity_not_found).
  - exists (msg_refine_no_entity V1),
      (exec (handleSelectKey host) (with_state (put_needsApiKey true) w)).
    unfold bind, setNeedsApiKey, modify, exec.
    rewrite handleSelectKey_spec. cbn.
    destruct (host_openSelectKey host); repeat split.
  - destruct (message_includes e key_not_valid); do 2 eexists;
      repeat split.
  - exists (msg_refine_other V2),
      (exec (handleSelectKey host) (with_state (put_needsApiKey true) w)).
    unfold bind, setNeedsApiKey, modify, exec.
    rewrite handleSelectKey_spec. cbn.
    destruct (host_openSelectKey host); repeat split.
  - do 2 eexists; repeat split.
Qed.

Lemma optimizePrompt_unfold (v : Variant) (host : Host) (input : jsstring)
    (chunks : list GenerateContentResponse) (fin : StreamEnd) (w : World) :
  exists p,
    optimizePrompt v host input chunks fin w
    = let w1 := with_state (put_optimizedPrompt p)
                  (exec (optimizePrompt_begin v input) w) in
      match fin with
      | Exhausted now_id now_timestamp =>
          optimizePrompt_finish
            {| rawInput := input;
               fullText := List.concat (map (delta v) chunks) |}
            now_id now_timestamp w1
      | Failed e => optimizePrompt_catch v host e w1
      end.
Proof.
  unfold optimizePrompt, exec. unfold bind at 1.
  rewrite optimizePrompt_begin_spec. cbn [snd]. unfold bind.
  match goal with |- context [optimizePrompt_loop v ?r chunks ?w0] =>
    destruct (optimizePrompt_loop_spec v chunks r w0) as [p Hp] end.
  exists p. rewrite Hp. cbn [rawInput fullText app].
  destruct fin; reflexivity.
Qed.

(** One run of [optimizePrompt] prepends a history item exactly when its
    stream is exhausted without error: the item carries the input of the
    run as [rawInput] and the concatenation of what the loop appended to
    [fullText] as [optimizedPrompt], and the status becomes Finished.
    When the stream fails the history is what it was, and the status is
    Error. *)
Lemma optimizePrompt_stores_what_the_loop_appended
    (v : Variant) (host : Host) (input : jsstring)
    (chunks : list GenerateContentResponse) (fin : StreamEnd) (w : World) :
  let w' := exec (optimizePrompt v host input chunks fin) w in
  history (state w')
  = match fin with
    | Exhausted now_id now_timestamp =>
        {| HistoryItem.id := Number_toString now_id;
           HistoryItem.timestamp := now_timestamp;
           HistoryItem.rawInput := input;
           HistoryItem.optimizedPrompt := List.concat (map (delta v) chunks) |}
        :: history (state w)
    | Failed _ => history (state w)
    end
  /\ status (state w')
     = match fin with Exhausted _ _ => FINISHED | Failed _ => ERROR end.
Proof.
  cbn zeta. rewrite exec_unfold.
  destruct (optimizePrompt_unfold v host input chunks fin w) as [p Hp].
  rewrite Hp. clear Hp. cbn zeta. unfold exec.
  rewrite optimizePrompt_begin_spec. cbn [snd].
  destruct fin as [a b|e].
  - destruct v, w as [[]]; split; reflexivity.
  - match goal with |- context [optimizePrompt_catch v host e ?w0] =>
      destruct (optimizePrompt_catch_spec v host e w0) as (msg & w1 & E & H & _)
    end.
    rewrite E, handleError_spec.
    cbn [snd state history status put_status put_error].
    rewrite H.
    destruct v, w as [[]]; split; reflexivity.
Qed.

Lemma delta_is_stream_delta (v : Variant) (c : GenerateContentResponse) :
  v = V1 \/ has_text c = true -> delta v c = stream_delta c.
Proof.
  unfold delta, stream_delta, has_text.
  destruct v, (text c); intros [H|H]; try reflexivity; discriminate.
Qed.

(** In the first revision, and in the second on a stream whose chunks
    all carry text, the item stored by an exhausted run holds the
    concatenation of the stream deltas; a failed run stores nothing. *)
Lemma history_item_holds_the_stream_deltas
    (v : Variant) (host : Host) (input : jsstring)
    (chunks : list GenerateContentResponse) (fin : StreamEnd) (w : World) :
  v = V1 \/ forallb has_text chunks = true ->
  history (state (exec (optimizePrompt v host input chunks fin) w))
  = match fin with
    | Exhausted now_id now_timestamp =>
        {| HistoryItem.id := Number_toString now_id;
           HistoryItem.timestamp := now_timestamp;
           HistoryItem.rawInput := input;
           HistoryItem.optimizedPrompt :=
             List.concat (map stream_delta chunks) |}
        :: history (state w)
    | Failed _ => history (state w)
    end.
Proof.
  intros H.
  rewrite (proj1 (optimizePrompt_stores_what_the_loop_appended
                    v host input chunks fin w)).
  destruct fin as [a b|e]; [|reflexivity].
  do 2 f_equal. f_equal.
  induction chunks as [|c chunks IH]; [reflexivity|].
  cbn [map]. rewrite IH, delta_is_stream_delta; [reflexivity| |].
  - destruct H as [H|H]; [now left|right].
    cbn in H. now apply andb_prop in H.
  - destruct H as [H|H]; [now left|right].
    cbn in H. now apply andb_prop in H.
Qed.

(** C2.  In the second revision the item stored is not the concatenation
    of the stream deltas when a chunk comes without text: the stream
    delivers "# Poem" and then a chunk without text, and the item stored
    for the input "Write a poem" carries "# Poemundefined", where the
    deltas concatenate to "# Poem".  The first revision stores "# Poem"
    on the same stream. *)
Theorem stored_prompt_gains_undefined :
  let chunks := [{| text := Some (utf16 "# Poem") |}; {| text := None |}] in
  let events :=
    capture [utf16 "Write a poem"]
    ++ ClickStop :: map (StreamChunk 0) chunks
    ++ [StreamExhausted 0 1730000000000 1730000000000] in
  List.concat (map stream_delta chunks) = utf16 "# Poem"
  /\ (exists s item,
        run V2 studio_host events initial = Some s
        /\ history (state (world s)) = [item]
        /\ HistoryItem.rawInput item = utf16 "Write a poem"
        /\ HistoryItem.optimizedPrompt item = utf16 "# Poemundefined"
        /\ HistoryItem.optimizedPrompt item
           <> List.concat (map stream_delta chunks))
  /\ (exists s item,
        run V1 studio_host events initial = Some s
        /\ history (state (world s)) = [item]
        /\ HistoryItem.optimizedPrompt item
           = List.concat (map stream_delta chunks)).
Proof.
  cbv zeta. split; [vm_compute; reflexivity|]. split.
  - do 2 eexists. split; [vm_compute; reflexivity|].
    split; [reflexivity|]. split; [vm_compute; reflexivity|].
    split; [vm_compute; reflexivity|]. vm_compute. discriminate.
  - do 2 eexists. split; [vm_compute; reflexivity|].
    split; [reflexivity|]. vm_compute. reflexivity.
Qed.

Lemma accumulated_agree_when_text_present
    (chunks : list GenerateContentResponse) :
  Forall (fun c => text c <> None) chunks ->
  accumulated V1 chunks = accumulated V2 chunks.
Proof.
  intros H. rewrite !accumulated_concat. f_equal.
  induction H as [|c chunks Hc _ IH]; [reflexivity|].
  cbn [map]. rewrite IH. f_equal.
  unfold delta. destruct (text c); [reflexivity|congruence].
Qed.

(** C10.  The two revisions do not accumulate the same text: on a stream
    that holds a chunk without [text], the first revision skips the chunk
    and the second appends the letters of [undefined]. *)
Theorem accumulation_differs_on_absent_text :
  let chunks := [{| text := Some (utf16 "# Poem") |}; {| text := None |}] in
  accumulated V1 chunks = utf16 "# Poem"
  /\ accumulated V2 chunks = utf16 "# Poemundefined"
  /\ accumulated V1 chunks <> accumulated V2 chunks.
Proof. cbv zeta. repeat split. vm_compute. discriminate. Qed.

(** ** [trim] *)

Lemma dropWhile_length (p : N -> bool) (s : jsstring) :
  length (dropWhile p s) <= length s.
Proof.
  induction s as [|c r IH]; cbn; [lia|]. destruct (p c); cbn; lia.
Qed.

Lemma dropWhile_fixed (p : N -> bool) (c : N) (r : jsstring) :
  dropWhile p (c :: r) = c :: r <-> p c = false.
Proof.
  cbn. destruct (p c) eqn:E; split; intros H; try reflexivity;
    try discriminate.
  pose proof (dropWhile_length p r) as L. rewrite H in L. cbn in L. lia.
Qed.

Lemma dropWhile_idem (p : N -> bool) (s : jsstring) :
  dropWhile p (dropWhile p s) = dropWhile p s.
Proof.
  induction s as [|c r IH]; [reflexivity|].
  cbn. destruct (p c) eqn:E; [exact IH|]. cbn. now rewrite E.
Qed.

Lemma dropWhile_suffix (p : N -> bool) (s : jsstring) :
  exists pre, s = pre ++ dropWhile p s.
Proof.
  induction s as [|c r [pre IH]]; [now exists []|].
  cbn. destruct (p c).
  - exists (c :: pre). cbn. now f_equal.
  - now exists [].
Qed.

Lemma trimEnd_prefix (s : jsstring) : exists post, s = trimEnd s ++ post.
Proof.
  unfold trimEnd. destruct (dropWhile_suffix is_white_space (rev s)) as [pre H].
  exists (rev pre). rewrite <- rev_app_distr, <- H. now rewrite rev_involutive.
Qed.

Lemma trimEnd_idem (s : jsstring) : trimEnd (trimEnd s) = trimEnd s.
Proof.
  unfold trimEnd. now rewrite rev_involutive, dropWhile_idem.
Qed.

Lemma trimStart_trimEnd (s : jsstring) :
  trimStart s = s -> trimStart (trimEnd s) = trimEnd s.
Proof.
  unfold trimStart. intros H.
  destruct (trimEnd_prefix s) as [post E].
  destruct (trimEnd s) as [|c t]; [reflexivity|].
  apply dropWhile_fixed. rewrite E in H. cbn [app] in H.
  now apply dropWhile_fixed in H.
Qed.

Lemma trim_idempotent (s : jsstring) : trim (trim s) = trim s.
Proof.
  unfold trim. rewrite trimStart_trimEnd.
  - apply trimEnd_idem.
  - apply dropWhile_idem.
Qed.

Lemma truthy_nonempty (s : jsstring) : truthy s = true <-> s <> [].
Proof. destruct s; cbn; split; congruence. Qed.

(** ** Leaving Listening by [stopListening] *)

(** C4 as stated fails on a buffer that holds one space: the buffer is not
    empty, yet the component goes Idle and submits nothing. *)
Lemma stopListening_blank_buffer_goes_idle :
  let w := listening_with (utf16 " ") in
  ~ (transcriptRef (refs w) <> [] ->
     status (state (exec (stopListening V1) w)) = OPTIMIZING
     /\ result (stopListening V1) w
        = Returned (Some {| rawInput := transcriptRef (refs w);
                            fullText := [] |})).
Proof.
  cbv zeta. intros H.
  assert (N : transcriptRef (refs (listening_with (utf16 " "))) <> [])
    by (vm_compute; discriminate).
  destruct (H N) as [S _]. vm_compute in S. discriminate.
Qed.

(** C4, amended.  [stopListening] trims the transcript buffer.  If the
    trimmed buffer is not empty it returns a refinement run whose input is
    the trimmed buffer, requests the stream for it and leaves the status
    Optimizing; if the trimmed buffer is empty it requests nothing and
    leaves the status Idle.  [onclose] does the same when the status its
    closure holds is Listening. *)
Theorem stopListening_submits_trimmed_buffer (v : Variant) (w : World) :
  let t := trim (transcriptRef (refs w)) in
  (t <> [] ->
     result (stopListening v) w
       = Returned (Some {| rawInput := t; fullText := [] |})
     /\ status (state (exec (stopListening v) w)) = OPTIMIZING
     /\ calls (exec (stopListening v) w)
        = call_generateContentStream (contents v t)
          :: release_calls (refs w) ++ calls w)
  /\ (t = [] ->
        result (stopListening v) w = Returned None
        /\ status (state (exec (stopListening v) w)) = IDLE
        /\ calls (exec (stopListening v) w)
           = release_calls (refs w) ++ calls w)
  /\ (forall c, conn_status c = LISTENING ->
                onclose v c w = stopListening v w).
Proof.
  cbn zeta. split; [|split];
    [| |intros c H; unfold onclose; now rewrite H];
    unfold result, exec; rewrite stopListening_spec; cbn zeta;
    intros H; repeat split.
  - apply truthy_nonempty in H. now rewrite H.
  - apply truthy_nonempty in H. rewrite H. unfold exec.
    rewrite optimizePrompt_begin_spec. destruct v; reflexivity.
  - apply truthy_nonempty in H. rewrite H. unfold exec.
    now rewrite optimizePrompt_begin_spec.
  - now rewrite H.
  - now rewrite H.
  - now rewrite H.
Qed.

Lemma stopListening_submits_trimmed_buffer_witness :
  let w := listening_with (utf16 " Write a poem ") in
  result (stopListening V2) w
  = Returned (Some {| rawInput := utf16 "Write a poem"; fullText := [] |})
  /\ status (state (exec (stopListening V2) w)) = OPTIMIZING.
Proof.
  cbv zeta.
  destruct (stopListening_submits_trimmed_buffer V2
              (listening_with (utf16 " Write a poem "))) as [H _].
  destruct H as (R & S & _); [vm_compute; discriminate|].
  split; [exact R|exact S].
Defined.

(** ** Credential errors *)

(** C7 as stated fails where the host has no [openSelectKey]: the flag and
    the Error status are set, but no credential selection is invoked. *)
Lemma credential_error_without_host_capability :
  let e := entity_not_found_error in
  let w' := exec (optimizePrompt_catch V1 bare_host e) initial_world in
  ~ (message_includes e entity_not_found = true ->
     needsApiKey (state w') = true
     /\ In call_openSelectKey (calls w')
     /\ status (state w') = ERROR).
Proof.
  cbv zeta. intros H.
  destruct H as (_ & I & _); [vm_compute; reflexivity|].
  vm_compute in I. exact I.
Qed.

Lemma handleSelectKey_after_flag (host : Host) (w : World) :
  let w1 := exec (handleSelectKey host)
              (with_state (put_needsApiKey true) w) in
  needsApiKey (state w1) = true
  /\ (host_openSelectKey host = true -> In call_openSelectKey (calls w1)).
Proof.
  cbn zeta. unfold exec. rewrite handleSelectKey_spec.
  destruct (host_openSelectKey host); cbn; split; auto; discriminate.
Qed.

Lemma handleError_reports (msg : jsstring) (w : World) :
  let w' := exec (handleError msg) w in
  needsApiKey (state w') = needsApiKey (state w)
  /\ status (state w') = ERROR
  /\ error (state w') = Some msg
  /\ (forall c, In c (calls w) -> In c (calls w')).
Proof.
  cbn zeta. unfold exec. rewrite handleError_spec. cbn.
  repeat split. intros c H. apply in_or_app; auto.
Qed.

Lemma msg_refine_V2 : msg_refine_no_entity V2 = msg_refine_other V2.
Proof. vm_compute. reflexivity. Qed.

Lemma messages_nonempty (v : Variant) :
  truthy (msg_voice_error v) = true
  /\ truthy (msg_microphone v) = true
  /\ truthy (msg_refine_no_entity v) = true
  /\ truthy (msg_refine_bad_key v) = true
  /\ truthy (msg_refine_other v) = true.
Proof. destruct v; repeat split. Qed.

(** C7, amended.  When the message of a voice-session error ([onerror])
    or of a refinement error (the [catch] of [optimizePrompt]) includes
    "Requested entity was not found.", the handler leaves [needsApiKey]
    true, the status Error and a non-empty error message, and it has
    called [openSelectKey] if the host provides that capability. *)
Theorem credential_error_flags_and_reports
    (v : Variant) (host : Host) (e : JsError) (w : World) :
  message_includes e entity_not_found = true ->
  let w1 := exec (onerror v host e) w in
  let w2 := exec (optimizePrompt_catch v host e) w in
  (needsApiKey (state w1) = true
   /\ status (state w1) = ERROR
   /\ error (state w1) = Some (msg_voice_error v)
   /\ truthy (msg_voice_error v) = true
   /\ (host_openSelectKey host = true -> In call_openSelectKey (calls w1)))
  /\ (needsApiKey (state w2) = true
      /\ status (state w2) = ERROR
      /\ error (state w2) = Some (msg_refine_no_entity v)
      /\ truthy (msg_refine_no_entity v) = true
      /\ (host_openSelectKey host = true -> In call_openSelectKey (calls w2))).
Proof.
  intros Hinc. cbn zeta.
  destruct (handleSelectKey_after_flag host w) as [F C].
  destruct (messages_nonempty v) as (T1 & _ & T3 & _).
  split.
  - rewrite (exec_unfold (onerror v host e)), onerror_spec, Hinc.
    rewrite <- exec_unfold.
    destruct (handleError_reports (msg_voice_error v)
                (exec (handleSelectKey host)
                   (with_state (put_needsApiKey true) w)))
      as (N & S & E & I).
    repeat split; auto. now rewrite N.
  - assert (X : optimizePrompt_catch v host e w
                = handleError (msg_refine_no_entity v)
                    (exec (handleSelectKey host)
                       (with_state (put_needsApiKey true) w))).
    { unfold optimizePrompt_catch. rewrite Hinc.
      destruct v; unfold bind, setNeedsApiKey, modify, exec; cbn beta iota;
        rewrite handleSelectKey_spec, ?msg_refine_V2; reflexivity. }
    rewrite (exec_unfold (optimizePrompt_catch v host e)), X.
    rewrite <- exec_unfold.
    destruct (handleError_reports (msg_refine_no_entity v)
                (exec (handleSelectKey host)
                   (with_state (put_needsApiKey true) w)))
      as (N & S & E & I).
    repeat split; auto. now rewrite N.
Qed.

Lemma credential_error_flags_and_reports_witness :
  let w1 := exec (onerror V2 studio_host entity_not_found_error)
              initial_world in
  needsApiKey (state w1) = true
  /\ status (state w1) = ERROR
  /\ In call_openSelectKey (calls w1).
Proof.
  cbv zeta.
  assert (Hinc : message_includes entity_not_found_error entity_not_found
                 = true) by (vm_compute; reflexivity).
  destruct (credential_error_flags_and_reports V2 studio_host
              entity_not_found_error initial_world Hinc)
    as [(N & S & _ & _ & I) _].
  split; [exact N|split; [exact S|apply I; reflexivity]].
Defined.

(** ** Frame reasoning: what a handler leaves alone *)

Section Frames.

Variable P : World -> World -> Prop.
Hypothesis P_refl : forall w, P w w.
Hypothesis P_trans : forall a b c, P a b -> P b c -> P a c.

Lemma preserves_ret {A} (a : A) : preserves P (ret a).
Proof. intros w. apply P_refl. Qed.

Lemma preserves_raise {A} (e : JsError) : preserves P (@raise A e).
Proof. intros w. apply P_refl. Qed.

Lemma preserves_await {A} (o : Outcome A) : preserves P (await o).
Proof. destruct o; intros w; apply P_refl. Qed.

Lemma preserves_get {A} (f : World -> A) : preserves P (get f).
Proof. intros w. apply P_refl. Qed.

Lemma preserves_modify (f : World -> World) :
  (forall w, P w (f w)) -> preserves P (modify f).
Proof. intros H w. apply H. Qed.

Lemma preserves_bind {A B} (m : M A) (k : A -> M B) :
  preserves P m -> (forall a, preserves P (k a)) -> preserves P (bind m k).
Proof.
  intros Hm Hk w. unfold exec, bind. specialize (Hm w). unfold exec in Hm.
  destruct (m w) as [[a|e] w1]; cbn in *; [|exact Hm].
  eapply P_trans; [exact Hm|apply Hk].
Qed.

Lemma preserves_tryCatch {A} (m : M A) (h : JsError -> M A) :
  preserves P m -> (forall e, preserves P (h e)) -> preserves P (tryCatch m h).
Proof.
  intros Hm Hh w. unfold exec, tryCatch. specialize (Hm w).
  unfold exec in Hm.
  destruct (m w) as [[a|e] w1]; cbn in *; [exact Hm|].
  eapply P_trans; [exact Hm|apply Hh].
Qed.

Lemma preserves_forEach {A} (l : list A) (f : A -> M unit) :
  (forall a, preserves P (f a)) -> preserves P (forEach l f).
Proof.
  intros H. induction l as [|x l IH]; cbn [forEach].
  - apply preserves_ret.
  - apply preserves_bind; auto.
Qed.

End Frames.

Create HintDb frames.

(** Break a handler down to its [modify] steps. *)
Ltac frame_step R T :=
  first
    [ solve [auto with frames]
    | apply (preserves_ret _ R)
    | apply (preserves_raise _ R)
    | apply (preserves_await _ R)
    | apply (preserves_get _ R)
    | apply (preserves_bind T); [|intros ?]
    | apply (preserves_tryCatch T); [|intros ?]
    | apply (preserves_forEach R T); intros ?
    | match goal with
      | |- preserves _ (match ?x with _ => _ end) => destruct x
      | |- preserves _ (let _ := _ in _) => cbv zeta
      end
    | apply preserves_modify; intros [[] [] ? ?]; repeat split ].

(** *** The history list and the transcript buffer *)

Lemma same_history_refl w : same_history w w.
Proof. reflexivity. Qed.

Lemma same_history_trans a b c :
  same_history a b -> same_history b c -> same_history a c.
Proof. unfold same_history; congruence. Qed.

Lemma quiet_refl w : quiet w w.
Proof. split; reflexivity. Qed.

Lemma quiet_trans a b c : quiet a b -> quiet b c -> quiet a c.
Proof.
  unfold quiet, same_history, same_transcriptRef.
  intros [] []; split; congruence.
Qed.

Lemma quiet_keeps_history {A} (m : M A) :
  preserves quiet m -> preserves same_history m.
Proof. intros H w. apply H. Qed.

Lemma quiet_keeps_transcriptRef {A} (m : M A) :
  preserves quiet m -> preserves same_transcriptRef m.
Proof. intros H w. apply H. Qed.
#[local] Hint Resolve quiet_keeps_history quiet_keeps_transcriptRef : frames.

Ltac unfold_setters :=
  unfold setStatus, setInputMode, setTranscript, setManualText,
    setOptimizedPrompt, setError, setNeedsApiKey, call.

Ltac quiet_auto :=
  unfold_setters; repeat (frame_step quiet_refl quiet_trans).

Ltac keeps_history_auto :=
  unfold_setters; repeat (frame_step same_history_refl same_history_trans).

Lemma quiet_stopListeningInternal :
  preserves quiet stopListeningInternal.
Proof. unfold stopListeningInternal, session_close. quiet_auto. Qed.
#[local] Hint Resolve quiet_stopListeningInternal : frames.

Lemma quiet_handleError msg :
  preserves quiet (handleError msg).
Proof. unfold handleError. quiet_auto. Qed.
#[local] Hint Resolve quiet_handleError : frames.

Lemma quiet_handleSelectKey host :
  preserves quiet (handleSelectKey host).
Proof. unfold handleSelectKey, handleSelectKey_open. quiet_auto. Qed.
#[local] Hint Resolve quiet_handleSelectKey : frames.

Lemma quiet_handleSelectKey_settle v o :
  preserves quiet (handleSelectKey_settle v o).
Proof. unfold handleSelectKey_settle. quiet_auto. Qed.
#[local] Hint Resolve quiet_handleSelectKey_settle : frames.

Lemma quiet_handleSelectKey_awaited v host o :
  preserves quiet (handleSelectKey_awaited v host o).
Proof.
  unfold handleSelectKey_awaited, handleSelectKey_open. quiet_auto.
Qed.
#[local] Hint Resolve quiet_handleSelectKey_awaited : frames.

Lemma quiet_checkKey host o :
  preserves quiet (checkKey host o).
Proof. unfold checkKey. quiet_auto. Qed.
#[local] Hint Resolve quiet_checkKey : frames.

Lemma quiet_key_check v host env :
  preserves quiet (key_check v host env).
Proof. unfold key_check. quiet_auto. Qed.
#[local] Hint Resolve quiet_key_check : frames.

Lemma quiet_optimizePrompt_begin v input :
  preserves quiet (optimizePrompt_begin v input).
Proof. unfold optimizePrompt_begin. quiet_auto. Qed.
#[local] Hint Resolve quiet_optimizePrompt_begin : frames.

Lemma quiet_optimizePrompt_chunk v r c :
  preserves quiet (optimizePrompt_chunk v r c).
Proof. unfold optimizePrompt_chunk. quiet_auto. Qed.
#[local] Hint Resolve quiet_optimizePrompt_chunk : frames.

Lemma quiet_optimizePrompt_catch v host e :
  preserves quiet (optimizePrompt_catch v host e).
Proof. unfold optimizePrompt_catch. quiet_auto. Qed.
#[local] Hint Resolve quiet_optimizePrompt_catch : frames.

Lemma keeps_history_startListening v host env :
  preserves same_history (startListening v host env).
Proof. unfold startListening, startListening_try. keeps_history_auto. Qed.
#[local] Hint Resolve keeps_history_startListening : frames.

Ltac unfold_stretches :=
  unfold startListening_begin, startListening_resume,
    startListening_selectKey, startListening_reset, startListening_catch,
    startListening_enter, startListening_request, handleSelectKey_open.

Lemma keeps_history_startListening_begin v host env :
  preserves same_history (startListening_begin v host env).
Proof. unfold_stretches. keeps_history_auto. Qed.
#[local] Hint Resolve keeps_history_startListening_begin : frames.

Lemma keeps_history_startListening_resume v host rendered p env :
  preserves same_history (startListening_resume v host rendered p env).
Proof. unfold_stretches. keeps_history_auto. Qed.
#[local] Hint Resolve keeps_history_startListening_resume : frames.

Lemma quiet_onopen node : preserves quiet (onopen node).
Proof. unfold onopen. quiet_auto. Qed.
#[local] Hint Resolve quiet_onopen : frames.

Lemma quiet_onaudioprocess c :
  preserves quiet (onaudioprocess c).
Proof. unfold onaudioprocess. quiet_auto. Qed.
#[local] Hint Resolve quiet_onaudioprocess : frames.

Lemma keeps_history_onmessage m : preserves same_history (onmessage m).
Proof. unfold onmessage. keeps_history_auto. Qed.
#[local] Hint Resolve keeps_history_onmessage : frames.

Lemma quiet_onerror v host e :
  preserves quiet (onerror v host e).
Proof. unfold onerror. quiet_auto. Qed.
#[local] Hint Resolve quiet_onerror : frames.

Lemma quiet_stopListening v :
  preserves quiet (stopListening v).
Proof. unfold stopListening. quiet_auto. Qed.
#[local] Hint Resolve quiet_stopListening : frames.

Lemma quiet_onclose v c : preserves quiet (onclose v c).
Proof. unfold onclose. quiet_auto. Qed.
#[local] Hint Resolve quiet_onclose : frames.

Lemma quiet_handleManualSubmit host env :
  preserves quiet (handleManualSubmit host env).
Proof. unfold handleManualSubmit. quiet_auto. Qed.
#[local] Hint Resolve quiet_handleManualSubmit : frames.

Lemma quiet_handleRegenerate :
  preserves quiet handleRegenerate.
Proof. unfold handleRegenerate. quiet_auto. Qed.
#[local] Hint Resolve quiet_handleRegenerate : frames.

(** ** Steps of the system *)

Lemma deliver_world {A} (m : M A) (k : A -> Sys -> Sys) (s : Sys) :
  (forall a s0, world (k a s0) = world s0) ->
  world (deliver m k s) = exec m (world s).
Proof.
  intros H. unfold deliver, exec.
  destruct (m (world s)) as [[a|e] w']; [rewrite H|]; reflexivity.
Qed.

Lemma world_keep {A} (a : A) s0 : world (keep a s0) = world s0.
Proof. reflexivity. Qed.
Lemma world_add_connection a s0 : world (add_connection a s0) = world s0.
Proof. destruct a; reflexivity. Qed.
Lemma world_add_refinement a s0 : world (add_refinement a s0) = world s0.
Proof. destruct a; reflexivity. Qed.
Lemma world_set_refinement n a s0 : world (set_refinement n a s0) = world s0.
Proof. reflexivity. Qed.
Lemma world_file_start n r a s0 : world (file_start n r a s0) = world s0.
Proof. destruct a; reflexivity. Qed.

Ltac deliver_to_exec :=
  rewrite deliver_world
    by (intros; first [apply world_keep | apply world_add_connection
                      | apply world_add_refinement
                      | apply world_set_refinement
                      | apply world_file_start]).

Ltac by_frame P :=
  match goal with
  | |- _ (_ (exec ?m ?w)) = _ =>
      let H := fresh in
      assert (H : preserves P m)
        by (auto with frames;
            unfold_setters; apply preserves_modify;
            intros [[] [] ? ?]; repeat split);
      exact (H w)
  end.

Lemma step_history (v : Variant) (host : Host) (e : Event) (s s' : Sys) :
  step v host e s = Some s' ->
  history (state (world s')) = stored_by e s ++ history (state (world s)).
Proof.
  destruct e; cbn [step stored_by app]; unfold guard;
    repeat match goal with
           | |- context [match ?x with _ => _ end] =>
               match x with
               | context [deliver] => fail 1
               | _ => destruct x eqn:?
               end
           end; intros [= <-];
    try (deliver_to_exec; by_frame same_history).
  - deliver_to_exec. cbn [app].
    assert (H : preserves same_history
                  (modify (with_keyFlows Nat.pred) ;;
                   handleSelectKey_settle v o)) by keeps_history_auto.
    exact (H (world s)).
  - deliver_to_exec. destruct s as [[[] [] ? ?] ? ?]. reflexivity.
Qed.

(** ** Identifiers of history items *)

Lemma map_injective {A B} (f : A -> B) :
  (forall x y, f x = f y -> x = y) ->
  forall l l', map f l = map f l' -> l = l'.
Proof.
  intros Hf. induction l as [|x l IH]; destruct l' as [|y l']; cbn;
    intros H; try discriminate; [reflexivity|].
  injection H as Hx Hl. f_equal; auto.
Qed.

Lemma bytes_of_injective (s s' : string) : bytes_of s = bytes_of s' -> s = s'.
Proof.
  unfold bytes_of. intros H. apply map_injective in H.
  - rewrite <- (string_of_list_ascii_of_string s),
            <- (string_of_list_ascii_of_string s'). now rewrite H.
  - intros x y E. rewrite <- (ascii_N_embedding x), <- (ascii_N_embedding y).
    now rewrite E.
Qed.

Lemma Number_toString_injective (a b : Z) :
  Number_toString a = Number_toString b -> a = b.
Proof.
  unfold Number_toString. intros H. apply bytes_of_injective in H.
  apply DecimalZ.to_int_inj.
  assert (E : Some (Z.to_int a) = Some (Z.to_int b))
    by (rewrite <- !NilEmpty.isi; now rewrite H).
  now injection E.
Qed.

Lemma NoDup_map_injective {A B} (f : A -> B) (l : list A) :
  (forall x y, f x = f y -> x = y) -> NoDup l -> NoDup (map f l).
Proof.
  intros Hf H. induction H as [|x l Hx _ IH]; cbn; constructor; [|exact IH].
  intros Hin. apply in_map_iff in Hin. destruct Hin as (y & E & Hy).
  apply Hf in E. subst y. contradiction.
Qed.

Lemma step_ids (v : Variant) (host : Host) (e : Event) (s s' : Sys) :
  step v host e s = Some s' ->
  map HistoryItem.id (stored_by e s) = map Number_toString (id_clock e).
Proof.
  destruct e; try reflexivity. cbn [step stored_by id_clock].
  destruct (suspended_run r s); [reflexivity|discriminate].
Qed.

Lemma run_history (v : Variant) (host : Host) (evs : list Event) :
  forall s s',
    run v host evs s = Some s' ->
    exists newer,
      history (state (world s')) = newer ++ history (state (world s))
      /\ map HistoryItem.id newer
         = rev (map Number_toString (flat_map id_clock evs)).
Proof.
  induction evs as [|e evs IH]; intros s s' H; cbn [run] in H.
  - injection H as <-. now exists [].
  - destruct (step v host e s) as [s1|] eqn:E; [|discriminate].
    destruct (IH _ _ H) as (newer & Hh & Hi).
    exists (newer ++ stored_by e s). split.
    + rewrite Hh, (step_history _ _ _ _ E). now rewrite app_assoc.
    + cbn [flat_map]. rewrite !map_app, rev_app_distr, Hi.
      f_equal. rewrite (step_ids _ _ _ _ E).
      destruct e; reflexivity.
Qed.

Lemma run_app (v : Variant) (host : Host) (evs1 evs2 : list Event) :
  forall s s1 s2,
    run v host evs1 s = Some s1 -> run v host evs2 s1 = Some s2 ->
    run v host (evs1 ++ evs2) s = Some s2.
Proof.
  induction evs1 as [|e evs1 IH]; intros s s1 s2 H1 H2; cbn in *.
  - now injection H1 as <-.
  - destruct (step v host e s); [eauto|discriminate].
Qed.

(** C9 as stated fails when two refinement runs finish at one clock
    reading: two different items then carry the same id. *)
Lemma history_ids_collide_at_equal_clock_readings :
  exists s a b,
    run V1 bare_host
      (ChangeInputMode mode_text
       :: refine_text "a" ++ [StreamExhausted 0 1730000000000 1730000000000]
       ++ refine_text "b" ++ [StreamExhausted 1 1730000000000 1730000000000]) initial = Some s
    /\ history (state (world s)) = [b; a]
    /\ a <> b
    /\ HistoryItem.id a = HistoryItem.id b.
Proof.
  do 3 eexists. split; [vm_compute; reflexivity|].
  split; [reflexivity|]. split; [discriminate|reflexivity].
Qed.

(** C9, amended.  Along any run of the component in which the clock
    readings taken for ids are pairwise distinct, the ids of the stored
    items are pairwise distinct; and whatever happens after an item is
    stored, the history of that moment stays, unchanged and in order, as
    the tail of the later history. *)
Theorem history_ids_distinct_at_distinct_clock_readings
    (v : Variant) (host : Host) (before after : list Event) (s1 s2 : Sys) :
  run v host before initial = Some s1 ->
  run v host after s1 = Some s2 ->
  NoDup (flat_map id_clock (before ++ after)) ->
  NoDup (map HistoryItem.id (history (state (world s2))))
  /\ exists newer,
       history (state (world s2)) = newer ++ history (state (world s1)).
Proof.
  intros H1 H2 Hnd. split.
  - destruct (run_history _ _ _ _ (run_app _ _ _ _ _ H1 H2))
      as (newer & Hh & Hi).
    rewrite Hh. cbn. rewrite app_nil_r, Hi.
    apply NoDup_rev, NoDup_map_injective; [|exact Hnd].
    apply Number_toString_injective.
  - destruct (run_history _ _ _ _ H2) as (newer & Hh & _). now exists newer.
Qed.

(** The same, pair by pair: the ids in the history are the decimal
    renderings of the clock readings taken, newest first, and two items
    whose readings differ have different ids, whatever the other readings
    were. *)
Lemma history_ids_differ_where_readings_differ
    (v : Variant) (host : Host) (evs : list Event) (s : Sys) :
  run v host evs initial = Some s ->
  let readings := rev (flat_map id_clock evs) in
  let ids := map HistoryItem.id (history (state (world s))) in
  ids = map Number_toString readings
  /\ forall i j a b,
       nth_error readings i = Some a -> nth_error readings j = Some b ->
       a <> b -> nth_error ids i <> nth_error ids j.
Proof.
  intros Hrun. cbn zeta.
  destruct (run_history _ _ _ _ Hrun) as (newer & Hh & Hi).
  assert (E : map HistoryItem.id (history (state (world s)))
              = map Number_toString (rev (flat_map id_clock evs))).
  { rewrite Hh. cbn. now rewrite app_nil_r, Hi, map_rev. }
  split; [exact E|]. intros i j a b Ha Hb Hab. rewrite E.
  rewrite (map_nth_error _ _ _ Ha), (map_nth_error _ _ _ Hb).
  intros [= H]. apply Hab. now apply Number_toString_injective.
Qed.

Lemma history_ids_distinct_at_distinct_clock_readings_witness :
  exists s1 s2,
    run V1 bare_host
      (ChangeInputMode mode_text
       :: refine_text "a" ++ [StreamExhausted 0 1730000000000 1730000000000]) initial = Some s1
    /\ run V1 bare_host
         (refine_text "b" ++ [StreamExhausted 1 1730000000001 1730000000001]) s1 = Some s2
    /\ NoDup (map HistoryItem.id (history (state (world s2)))).
Proof.
  do 2 eexists. split; [vm_compute; reflexivity|]. split; [vm_compute; reflexivity|].
  refine (proj1 (history_ids_distinct_at_distinct_clock_readings
                   V1 bare_host
                   (ChangeInputMode mode_text
                    :: refine_text "a" ++ [StreamExhausted 0 1730000000000 1730000000000])
                   (refine_text "b" ++ [StreamExhausted 1 1730000000001 1730000000001])
                   _ _ _)).
  - vm_compute; reflexivity.
  - vm_compute; reflexivity.
  - cbn. repeat constructor; cbn; intuition lia.
Defined.

(** ** The transcript buffer *)

Lemma same_transcriptRef_refl w : same_transcriptRef w w.
Proof. reflexivity. Qed.

Lemma same_transcriptRef_trans a b c :
  same_transcriptRef a b -> same_transcriptRef b c -> same_transcriptRef a c.
Proof. unfold same_transcriptRef; congruence. Qed.

Ltac keeps_transcriptRef_auto :=
  unfold_setters;
  repeat (frame_step same_transcriptRef_refl same_transcriptRef_trans).

Lemma keeps_transcriptRef_optimizePrompt_finish r a b :
  preserves same_transcriptRef (optimizePrompt_finish r a b).
Proof. unfold optimizePrompt_finish, setHistory. keeps_transcriptRef_auto. Qed.
#[local] Hint Resolve keeps_transcriptRef_optimizePrompt_finish : frames.

Lemma onmessage_transcriptRef (m : LiveServerMessage) (w : World) :
  transcriptRef (refs (exec (onmessage m) w))
  = transcriptRef (refs w) ++ appended_by m
  /\ transcript (state (exec (onmessage m) w))
     = match serverContent m with
       | Some {| inputTranscription := Some _ |} =>
           transcriptRef (refs w) ++ appended_by m
       | _ => transcript (state w)
       end.
Proof.
  unfold onmessage, appended_by.
  destruct (serverContent m) as [[[tr|]]|]; cbn;
    rewrite ?app_nil_r; split; reflexivity.
Qed.

Lemma step_transcriptRef (v : Variant) (host : Host) (e : Event)
    (s s' : Sys) :
  step v host e s = Some s' ->
  is_start e = false ->
  transcriptRef (refs (world s'))
  = transcriptRef (refs (world s)) ++ appended_at e.
Proof.
  destruct e; cbn [step appended_at is_start]; try discriminate;
    unfold guard;
    repeat match goal with
           | |- context [match ?x with _ => _ end] =>
               match x with
               | context [deliver] => fail 1
               | _ => destruct x eqn:?
               end
           end; intros [= <-] _; deliver_to_exec;
    try (rewrite app_nil_r; by_frame same_transcriptRef).
  - rewrite app_nil_r.
    assert (H : preserves same_transcriptRef
                  (modify (with_keyFlows Nat.pred) ;;
                   handleSelectKey_settle v o)) by keeps_transcriptRef_auto.
    exact (H (world s)).
  - apply onmessage_transcriptRef.
Qed.

Lemma run_transcriptRef (v : Variant) (host : Host) (evs : list Event) :
  forall s s',
    run v host evs s = Some s' ->
    forallb (fun e => negb (is_start e)) evs = true ->
    transcriptRef (refs (world s'))
    = transcriptRef (refs (world s)) ++ List.concat (map appended_at evs).
Proof.
  induction evs as [|e evs IH]; intros s s' H N; cbn in *.
  - injection H as <-. now rewrite app_nil_r.
  - destruct (step v host e s) as [s1|] eqn:E; [|discriminate].
    apply andb_prop in N. destruct N as [Ne N].
    rewrite (IH _ _ H N), (step_transcriptRef _ _ _ _ E).
    + now rewrite app_assoc.
    + now destruct (is_start e).
Qed.

Lemma startListening_capture_keeps_transcriptRef
    (v : Variant) (host : Host) (env : StartEnv) (rendered : AppStatus) :
  preserves same_transcriptRef
    (tryCatch
       (c <- startListening_try v env rendered ;; ret (Some c))
       (fun _ => handleError (msg_microphone v) ;; ret None)).
Proof. unfold startListening_try. keeps_transcriptRef_auto. Qed.

Lemma startListening_resets (v : Variant) (host : Host) (env : StartEnv)
    (w : World) (oc : option Connection) :
  result (startListening v host env) w = Returned oc ->
  transcriptRef (refs (exec (startListening v host env) w)) = [].
Proof.
  unfold result, exec, startListening.
  set (gate := match v with V1 => key_check v host (env_key env) | V2 => _ end).
  pose proof (startListening_capture_keeps_transcriptRef v host env
                (status (state w))) as H.
  revert H.
  set (capture := tryCatch _ _). intros H.
  change (fst ((fun w0 : World =>
                  match gate w0 with
                  | (Returned _, w1) =>
                      capture
                        (with_refs (put_transcriptRef [])
                           (with_state (put_optimizedPrompt [])
                              (with_state (put_transcript [])
                                 (with_state (put_error None) w1))))
                  | (Raised e, w1) => (Raised e, w1)
                  end) w) = Returned oc ->
          transcriptRef
            (refs (snd ((fun w0 : World =>
                  match gate w0 with
                  | (Returned _, w1) =>
                      capture
                        (with_refs (put_transcriptRef [])
                           (with_state (put_optimizedPrompt [])
                              (with_state (put_transcript [])
                                 (with_state (put_error None) w1))))
                  | (Raised e, w1) => (Raised e, w1)
                  end) w))) = []).
  cbn beta. destruct (gate w) as [[[]|e] w1]; [|discriminate].
  intros _. unfold same_transcriptRef, preserves, exec in H. rewrite H.
  destruct w1 as [? [] ? ?]. reflexivity.
Qed.

Lemma step_resets_transcriptRef
    (v : Variant) (host : Host) (env : StartEnv)
    (oc : option Connection) (s s1 : Sys) :
  result (startListening v host env) (world s) = Returned oc ->
  step v host (ClickStart env) s = Some s1 ->
  transcriptRef (refs (world s1)) = [].
Proof.
  intros Hok Hstart.
  cbn [step] in Hstart. unfold guard in Hstart.
  destruct (can_start v (state (world s))); [|discriminate].
  injection Hstart as <-. deliver_to_exec.
  eapply startListening_resets; eassumption.
Qed.

(** Where every transcription carries text, what [onmessage] appended is
    the fragments received. *)
Lemma appended_is_received (evs : list Event) :
  forallb (fun e => negb (transcription_without_text e)) evs = true ->
  List.concat (map appended_at evs) = List.concat (received_fragments evs).
Proof.
  unfold received_fragments.
  induction evs as [|e evs IH]; [reflexivity|].
  cbn [forallb map flat_map List.concat]. intros H.
  apply andb_prop in H. destruct H as [He H].
  rewrite concat_app, (IH H). f_equal.
  destruct e; try reflexivity.
  destruct m as [[[[[[t|]]|]]|]]; cbn in *;
    rewrite ?app_nil_r; try reflexivity; discriminate.
Qed.

(** On a transcription without text [onmessage] appends the letters of
    [undefined]: such a message is no fragment, and the property below
    does not speak of it. *)
Example transcription_without_text_appends_undefined :
  let m := {| serverContent :=
                Some {| inputTranscription :=
                          Some {| transcription_text := None |} |} |} in
  transcription_without_text (SessionMessage 0 m) = true
  /\ received_fragment (SessionMessage 0 m) = None
  /\ transcriptRef (refs (exec (onmessage m) (listening_with (utf16 "Write"))))
     = utf16 "Writeundefined".
Proof. cbv zeta. repeat split. Qed.


(** ** What the [onclose] closure sees *)

Lemma yields_ret {A} (Q : A -> Prop) (a : A) : Q a -> yields Q (ret a).
Proof. intros H w a' w' [= <- _]. exact H. Qed.

Lemma yields_raise {A} (Q : A -> Prop) (e : JsError) : yields Q (raise e).
Proof. intros w a w' [=]. Qed.

Lemma yields_bind {A B} (R : A -> Prop) (Q : B -> Prop)
    (m : M A) (k : A -> M B) :
  yields R m -> (forall a, R a -> yields Q (k a)) -> yields Q (bind m k).
Proof.
  intros Hm Hk w b w'. unfold bind.
  destruct (m w) as [[a|e] w1] eqn:E; [|discriminate].
  apply Hk. eapply Hm. exact E.
Qed.

Lemma yields_any {A} (m : M A) : yields (fun _ => True) m.
Proof. intros w a w' _. exact I. Qed.

Lemma yields_tryCatch {A} (Q : A -> Prop) (m : M A) (h : JsError -> M A) :
  yields Q m -> (forall e, yields Q (h e)) -> yields Q (tryCatch m h).
Proof.
  intros Hm Hh w a w'. unfold tryCatch.
  destruct (m w) as [[a0|e] w1] eqn:E.
  - intros [= <- _]. eapply Hm. exact E.
  - apply Hh.
Qed.

Ltac yields_skip_one :=
  apply (yields_bind (R := fun _ => True)); [apply yields_any|intros ? _].

Ltac yields_skip :=
  repeat first
    [ apply yields_raise
    | apply (yields_bind (R := fun _ => True)); [apply yields_any|intros ? _]
    | match goal with
      | |- yields _ (match ?x with _ => _ end) => destruct x
      end ].

Lemma startListening_try_captures
    (v : Variant) (env : StartEnv) (rendered : AppStatus) :
  yields (fun c => conn_status c = rendered)
         (startListening_try v env rendered).
Proof.
  unfold startListening_try. destruct v; yields_skip;
    apply yields_ret; reflexivity.
Qed.

Lemma startListening_captures (v : Variant) (host : Host) (env : StartEnv)
    (w : World) (c : Connection) :
  result (startListening v host env) w = Returned (Some c) ->
  conn_status c = status (state w).
Proof.
  unfold result, startListening. unfold bind at 1, get. cbn beta iota.
  match goal with |- fst (?m w) = _ -> _ =>
    assert (Y : yields (fun oc => forall c0, oc = Some c0 ->
                                  conn_status c0 = status (state w)) m)
  end.
  { yields_skip. apply yields_tryCatch.
    - eapply yields_bind; [apply startListening_try_captures|].
      intros c1 Hc1. apply yields_ret. now intros c0 [= <-].
    - intros e. yields_skip. apply yields_ret. discriminate. }
  match goal with |- fst (?m w) = _ -> _ =>
    destruct (m w) as [o w'] eqn:E end.
  cbn. intros ->. eapply Y; [exact E|reflexivity].
Qed.

Lemma deliver_connections {A} (m : M A) (k : A -> Sys -> Sys) (s : Sys) :
  (forall a s0, connections (k a s0) = connections s0) ->
  connections (deliver m k s) = connections s.
Proof.
  intros H. unfold deliver.
  destruct (m (world s)) as [[a|e] w']; [rewrite H|]; reflexivity.
Qed.

Lemma Forall_replace_nth {A} (Q : A -> Prop) (n : nat) (x : A) (l : list A) :
  Q x -> Forall Q l -> Forall Q (replace_nth n x l).
Proof.
  intros Hx H. revert n. induction H as [|y l Hy Hl IH]; intros n.
  - destruct n; constructor.
  - destruct n; cbn; constructor; auto.
Qed.

Lemma deliver_starts {A} (m : M A) (k : A -> Sys -> Sys) (s : Sys) :
  (forall a s0, starts (k a s0) = starts s0) ->
  starts (deliver m k s) = starts s.
Proof.
  intros H. unfold deliver.
  destruct (m (world s)) as [[a|e] w']; [rewrite H|]; reflexivity.
Qed.

(** An invariant that does not look at the component's own state holds
    after a handler if filing any value the handler can return keeps
    it. *)
Lemma deliver_invariant {A} (Inv : Sys -> Prop) (Q : A -> Prop)
    (m : M A) (k : A -> Sys -> Sys) (s : Sys) :
  (forall s0 w', Inv s0 ->
     Inv {| world := w'; connections := connections s0;
            refinements := refinements s0; starts := starts s0 |}) ->
  yields Q m ->
  (forall a s0, Q a -> Inv s0 -> Inv (k a s0)) ->
  Inv s -> Inv (deliver m k s).
Proof.
  intros Hw Y Hk I0. unfold deliver.
  destruct (m (world s)) as [[a|e] w'] eqn:E; [|now apply Hw].
  apply Hk; [eapply Y; exact E|now apply Hw].
Qed.

Ltac yields_open :=
  repeat first
    [ apply yields_raise
    | apply (yields_bind (R := fun _ => True)); [apply yields_any|intros ? _]
    | match goal with
      | |- yields _ (match ?x with _ => _ end) => destruct x
      | |- yields _ (tryCatch _ _) => apply yields_tryCatch; [|intros ?]
      | |- yields _ (ret _) => apply yields_ret
      end ].

(** The callbacks a stretch installs close over the status of the render
    that created the run. *)
Lemma startListening_begin_captures
    (v : Variant) (host : Host) (env : StartEnv) (rendered : AppStatus) :
  yields (fun next => forall c, next = Installed c -> conn_status c = rendered)
         (startListening_begin v host env).
Proof.
  unfold_stretches. destruct v; yields_open; intros c0 H; discriminate H.
Qed.

Lemma startListening_resume_captures
    (v : Variant) (host : Host) (rendered : AppStatus) (p : StartPoint)
    (env : StartEnv) :
  yields (fun next => forall c, next = Installed c -> conn_status c = rendered)
         (startListening_resume v host rendered p env).
Proof.
  unfold_stretches. destruct p; yields_open; intros c0 H;
    try discriminate H; now injection H as <-.
Qed.

Lemma never_rendered_listening_world (s0 : Sys) (w' : World) :
  never_rendered_listening s0 ->
  never_rendered_listening
    {| world := w'; connections := connections s0;
       refinements := refinements s0; starts := starts s0 |}.
Proof. intros H. exact H. Qed.

Lemma never_rendered_listening_same (s s' : Sys) :
  connections s' = connections s -> starts s' = starts s ->
  never_rendered_listening s -> never_rendered_listening s'.
Proof. unfold never_rendered_listening. now intros -> ->. Qed.

Lemma file_start_never_rendered
    (n : nat) (rendered : AppStatus) (next : StartNext) (s : Sys) :
  rendered <> LISTENING ->
  (forall c, next = Installed c -> conn_status c = rendered) ->
  never_rendered_listening s ->
  never_rendered_listening (file_start n rendered next s).
Proof.
  intros Hr Hc [C S]. destruct next as [p|c|]; cbn; split; auto.
  - apply Forall_replace_nth; [|exact S]. now intros sr [= <-].
  - apply Forall_app. split; [exact C|]. constructor; [|constructor].
    now rewrite (Hc c eq_refl).
Qed.

Lemma suspended_start_in (k : nat) (s : Sys) (sr : Start) :
  suspended_start k s = Some sr -> In (Some sr) (starts s).
Proof.
  unfold suspended_start.
  destruct (nth_error (starts s) k) as [[x|]|] eqn:E;
    intros [= <-]. eapply nth_error_In; eassumption.
Qed.

Lemma can_start_not_listening (v : Variant) (st : State) :
  can_start v st = true -> status st <> LISTENING.
Proof.
  unfold can_start. intros H E. rewrite E in H. cbn in H.
  now rewrite andb_false_r in H.
Qed.

Lemma step_never_rendered_listening
    (v : Variant) (host : Host) (e : Event) (s s' : Sys) :
  step v host e s = Some s' ->
  never_rendered_listening s -> never_rendered_listening s'.
Proof.
  destruct e; cbn [step]; unfold guard;
    repeat match goal with
           | |- context [match ?x with _ => _ end] =>
               match x with
               | context [deliver] => fail 1
               | _ => destruct x eqn:?
               end
           end; intros [= <-] Inv;
    try (refine (@never_rendered_listening_same _ _ _ _ Inv);
         [ rewrite deliver_connections | rewrite deliver_starts ];
         try reflexivity;
         intros; try match goal with a : option _ |- _ => destruct a end;
         reflexivity).
  - unfold deliver.
    destruct (startListening v host env (world s)) as [[[c|]|e] w'] eqn:E;
      cbn; try exact Inv.
    destruct Inv as [C S]. split; [|exact S].
    apply Forall_app. split; [exact C|]. constructor; [|constructor].
    rewrite (startListening_captures v host env (world s) (c := c))
      by (unfold result; now rewrite E).
    eapply can_start_not_listening; eassumption.
  - eapply deliver_invariant;
      [ apply never_rendered_listening_world
      | apply (startListening_begin_captures v host env
                 (status (state (world s))))
      | | ].
    + intros a s1 Q I. apply file_start_never_rendered; auto.
      eapply can_start_not_listening; eassumption.
    + destruct Inv as [C S]. split; [exact C|]. cbn.
      apply Forall_app. split; [exact S|].
      constructor; [discriminate|constructor].
  - match goal with H : suspended_start _ _ = Some ?sr |- _ =>
      assert (R : start_status sr <> LISTENING)
        by (destruct Inv as [_ S]; rewrite Forall_forall in S;
            eapply S; [eapply suspended_start_in; exact H|reflexivity])
    end.
    eapply deliver_invariant;
      [ apply never_rendered_listening_world
      | apply startListening_resume_captures
      | | ].
    + intros a s1 Q I. now apply file_start_never_rendered.
    + destruct Inv as [C S]. split; [exact C|]. cbn.
      apply Forall_replace_nth; [discriminate|exact S].
Qed.

Lemma run_invariant (v : Variant) (host : Host) (Inv : Sys -> Prop) :
  (forall e s s', step v host e s = Some s' -> Inv s -> Inv s') ->
  forall evs s s', run v host evs s = Some s' -> Inv s -> Inv s'.
Proof.
  intros Hstep. induction evs as [|e evs IH]; intros s s' H I0; cbn in H.
  - now injection H as <-.
  - destruct (step v host e s) as [s1|] eqn:E; [|discriminate].
    eapply IH; [exact H|]. eapply Hstep; eassumption.
Qed.

(** In every state the component can reach, the callbacks of every
    connection were created in a render whose [status] was not
    [LISTENING], so [onclose] finds its test false. *)
Lemma onclose_never_stops
    (v : Variant) (host : Host) (evs : list Event) (k : nat) (s s' : Sys) :
  run v host evs initial = Some s ->
  step v host (SessionClose k) s = Some s' ->
  s' = s.
Proof.
  intros Hrun Hstep.
  assert (Inv : never_rendered_listening s).
  { eapply run_invariant; [apply step_never_rendered_listening|exact Hrun|].
    split; constructor. }
  cbn [step] in Hstep.
  destruct (nth_error (connections s) k) as [c|] eqn:E; [|discriminate].
  injection Hstep as <-.
  apply nth_error_In in E. destruct Inv as [Inv _].
  rewrite Forall_forall in Inv. specialize (Inv c E).
  unfold deliver, onclose.
  destruct (conn_status c); try congruence; destruct s; reflexivity.
Qed.

(** C5.  The session closes in the middle of a capture: the status is
    Listening and the buffer holds "Write a poem", yet the [onclose]
    callback, which reads the [status] of the render that created it,
    changes nothing: the status stays Listening, the microphone stream is
    still held, and no refinement is submitted. *)
Theorem implicit_close_while_listening_is_ignored (v : Variant) :
  exists s,
    run v studio_host (capture [utf16 "Write"; utf16 " a poem"]) initial
    = Some s
    /\ status (state (world s)) = LISTENING
    /\ transcriptRef (refs (world s)) = utf16 "Write a poem"
    /\ step v studio_host (SessionClose 0) s = Some s
    /\ streamRef (refs (world s))
       = Some {| stream_id := 2; getTracks := [7] |}
    /\ refinements s = [].
Proof.
  destruct v; eexists; (split; [vm_compute; reflexivity|]);
    repeat split; vm_compute; reflexivity.
Qed.

(** ** Inputs of refinement runs *)

Lemma optimizePrompt_begin_yields (v : Variant) (input : jsstring) :
  yields (fun r => rawInput r = input) (optimizePrompt_begin v input).
Proof.
  intros w a w'. rewrite optimizePrompt_begin_spec. now intros [= <- _].
Qed.

Lemma passes_begin (P : jsstring -> Prop) (v : Variant) (input : jsstring) :
  P input ->
  yields (passes P) (r <- optimizePrompt_begin v input ;; ret (Some r)).
Proof.
  intros H. eapply yields_bind; [apply optimizePrompt_begin_yields|].
  intros r <-. apply yields_ret. now intros r' [= <-].
Qed.

Lemma passes_none (P : jsstring -> Prop) : yields (passes P) (ret None).
Proof. apply yields_ret. discriminate. Qed.

Lemma trimmed_nonempty_trim (t : jsstring) :
  truthy (trim t) = true -> trimmed_nonempty (trim t).
Proof.
  intros H. split; [now apply truthy_nonempty|apply trim_idempotent].
Qed.

(** The stop button and the text form pass trimmed, non-empty text. *)
Lemma stopListening_passes_trimmed (v : Variant) :
  yields (passes trimmed_nonempty) (stopListening v).
Proof.
  intros w. unfold stopListening. unfold bind at 1, get. cbn beta iota zeta.
  revert w. change (yields (passes trimmed_nonempty)
    (fun w => (stopListeningInternal ;;
       (if truthy (trim (transcriptRef (refs w)))
        then r <- optimizePrompt_begin v (trim (transcriptRef (refs w))) ;;
             ret (Some r)
        else setStatus IDLE ;; ret None)) w)).
  intros w. 
  assert (Y : yields (passes trimmed_nonempty)
    (stopListeningInternal ;;
       (if truthy (trim (transcriptRef (refs w)))
        then r <- optimizePrompt_begin v (trim (transcriptRef (refs w))) ;;
             ret (Some r)
        else setStatus IDLE ;; ret None))).
  { yields_skip_one.
    destruct (truthy (trim (transcriptRef (refs w)))) eqn:T.
    - apply passes_begin. now apply trimmed_nonempty_trim.
    - yields_skip_one. apply passes_none. }
  apply Y.
Qed.

Lemma handleManualSubmit_passes_trimmed (host : Host) (env : KeyEnv) :
  yields (passes trimmed_nonempty) (handleManualSubmit host env).
Proof.
  intros w. unfold handleManualSubmit. unfold bind at 1, get.
  cbn beta iota.
  destruct (truthy (trim (manualText (state w)))) eqn:T.
  - revert w T. intros w T.
    assert (Y : yields (passes trimmed_nonempty)
      (key_check V1 host env ;;
       r <- optimizePrompt_begin V1 (trim (manualText (state w))) ;;
       ret (Some r))).
    { yields_skip_one. apply passes_begin. now apply trimmed_nonempty_trim. }
    apply Y.
  - apply passes_none.
Qed.

(** Regeneration passes non-blank text, though not trimmed text. *)
Lemma handleRegenerate_passes_nonblank :
  yields (passes nonblank) handleRegenerate.
Proof.
  intros w. unfold handleRegenerate. unfold bind at 1, get. cbn beta iota.
  destruct (truthy (trim (transcriptRef (refs w)))) eqn:T.
  - apply passes_begin. now apply truthy_nonempty.
  - apply passes_none.
Qed.

(** C6.  Regenerating after a capture whose transcript starts with a
    space: [handleRegenerate] passes the buffer as it is, leading space
    included, where [stopListening] had passed it trimmed. *)
Theorem handleRegenerate_passes_untrimmed_transcript :
  exists s r,
    run V2 studio_host
      (capture [utf16 " Write"; utf16 " a poem"]
       ++ [ClickStop;
           StreamChunk 0 {| text := Some (utf16 "# Poem") |};
           StreamExhausted 0 1730000000000 1730000000000;
           ClickRegenerate]) initial = Some s
    /\ refinements s = [None; Some r]
    /\ rawInput r = utf16 " Write a poem"
    /\ trim (rawInput r) = utf16 "Write a poem"
    /\ trim (rawInput r) <> rawInput r
    /\ hd_error (calls (world s))
       = Some (call_generateContentStream (contents V2 (utf16 " Write a poem"))).
Proof.
  do 2 eexists. split; [vm_compute; reflexivity|].
  split; [reflexivity|].
  repeat split; try (vm_compute; reflexivity). vm_compute. discriminate.
Qed.

(** ** Instances *)

Example stop_releases_the_capture :
  let w' := exec (stopListening V1) capturing_world in
  status (state w') = OPTIMIZING
  /\ released (refs w')
  /\ In (call_session_close 3) (calls w')
  /\ In (call_disconnect 5) (calls w')
  /\ In (call_track_stop 7) (calls w')
  /\ In (call_track_stop 8) (calls w')
  /\ In (call_context_close 1) (calls w').
Proof.
  cbv zeta.
  destruct (stop_and_error_handlers_release V1 studio_host capturing_world)
    as [(_ & R & C) _].
  split; [vm_compute; reflexivity|]. split; [exact R|].
  repeat split; apply C; vm_compute; tauto.
Qed.


(** The scenario of the specification, end to end. *)
Example write_a_poem (v : Variant) :
  exists s item,
    run v studio_host
      (capture [utf16 "Write"; utf16 " a"; utf16 " poem"]
       ++ [ClickStop;
           StreamChunk 0 {| text := Some (utf16 "# Poem") |};
           StreamChunk 0 {| text := Some (utf16 "...") |};
           StreamExhausted 0 1730000000000 1730000000001]) initial = Some s
    /\ status (state (world s)) = FINISHED
    /\ optimizedPrompt (state (world s)) = utf16 "# Poem..."
    /\ history (state (world s)) = [item]
    /\ HistoryItem.rawInput item = utf16 "Write a poem"
    /\ HistoryItem.optimizedPrompt item = utf16 "# Poem..."
    /\ HistoryItem.id item = utf16 "1730000000000"
    /\ released (refs (world s)).
Proof.
  destruct v; do 2 eexists; (split; [vm_compute; reflexivity|]);
    repeat split; vm_compute; reflexivity.
Qed.

(** * Further properties of the component *)

(** ** Handlers taken apart down to their assignments *)

Create HintDb handlers.
#[local] Hint Unfold checkKey startListening startListening_try
  startListening_begin startListening_resume startListening_selectKey
  startListening_reset startListening_catch startListening_enter
  startListening_request handleManualSubmit key_check onerror optimizePrompt_catch
  handleSelectKey_awaited handleSelectKey handleSelectKey_open
  handleSelectKey_settle onclose stopListening handleRegenerate onopen
  onaudioprocess onmessage handleError optimizePrompt_begin
  optimizePrompt_chunk optimizePrompt_finish setHistory setStatus
  setInputMode setTranscript setManualText setOptimizedPrompt setError
  setNeedsApiKey call : handlers.

Ltac unfold_handlers := repeat (progress autounfold with handlers).

(** Reduce [preserves P m] to one goal [P w (f w)] per assignment of [m];
    [stopListeningInternal] is left to the hints. *)
Ltac frame_open R T :=
  repeat first
    [ solve [auto with frames]
    | apply (preserves_ret _ R)
    | apply (preserves_raise _ R)
    | apply (preserves_await _ R)
    | apply (preserves_get _ R)
    | apply (preserves_bind T); [|intros ?]
    | apply (preserves_tryCatch T); [|intros ?]
    | apply (preserves_forEach R T); intros ?
    | match goal with
      | |- preserves _ (match ?x with _ => _ end) => destruct x eqn:?
      | |- preserves _ (let _ := _ in _) => cbv zeta
      end
    | apply preserves_modify; intros ? ].

(** Each enabled case of [step], as a goal about the handler it runs. *)
Ltac step_cases :=
  cbn [step]; unfold guard;
  repeat match goal with
         | |- context [match ?x with _ => _ end] =>
             match x with
             | context [deliver] => fail 1
             | _ => destruct x eqn:?
             end
         end;
  intros [= <-]; deliver_to_exec; cbn [world set_refinement set_start open_start].

Ltac to_preserves :=
  match goal with
  | |- ?P ?w (exec ?m ?w) =>
      let H := fresh in
      assert (H : preserves P m); [|exact (H w)]
  end.

(** ** The status transitions *)

Lemma status_within_refl allowed w : status_within allowed w w.
Proof. now left. Qed.

Lemma status_within_trans allowed a b c :
  status_within allowed a b -> status_within allowed b c ->
  status_within allowed a c.
Proof.
  unfold status_within.
  intros [H1|H1] [H2|H2];
    [left; congruence|now right|right; now rewrite H2|now right].
Qed.

Lemma status_within_stopListeningInternal allowed :
  preserves (status_within allowed) stopListeningInternal.
Proof.
  intros w. unfold exec. rewrite stopListeningInternal_spec. now left.
Qed.
#[local] Hint Resolve status_within_stopListeningInternal : frames.

Ltac status_leaf :=
  match goal with
  | w : World |- status_within _ _ _ =>
      destruct w as [[] ? ? ?]; unfold status_within; cbn; tauto
  end.

(** X1.  The transition table of the status: a step of the component
    either leaves the status as it was or sets it to a status its event
    allows.  Listening is entered only by [onopen], Finished only by the
    end of a stream, Optimizing only by stop, text submit or regenerate,
    Idle only by stop or dismiss ([onclose] counting as a stop), and Error
    only by a failed start, [onerror] or a failed stream. *)
Theorem status_changes_only_as_the_event_allows
    (v : Variant) (host : Host) (e : Event) (s s' : Sys) :
  step v host e s = Some s' ->
  status_within (may_set e) (world s) (world s').
Proof.
  destruct e; step_cases; cbn [may_set]; to_preserves; unfold_handlers;
    match goal with
    | |- preserves (status_within ?allowed) _ =>
        frame_open (status_within_refl allowed)
                   (@status_within_trans allowed)
    end;
    status_leaf.
Qed.

Lemma status_changes_only_as_the_event_allows_witness :
  exists s s',
    run V2 studio_host [ClickStart studio_env] initial = Some s
    /\ step V2 studio_host (SessionOpen 0 {| node_id := 5 |}) s = Some s'
    /\ status (state (world s)) = IDLE
    /\ status (state (world s')) = LISTENING
    /\ status_within [LISTENING] (world s) (world s').
Proof.
  do 2 eexists. split; [vm_compute; reflexivity|].
  split; [vm_compute; reflexivity|].
  split; [reflexivity|]. split; [reflexivity|].
  refine (@status_changes_only_as_the_event_allows V2 studio_host
            (SessionOpen 0 {| node_id := 5 |}) _ _ _).
  vm_compute; reflexivity.
Defined.

(** ** A host without the credential capabilities *)

Lemma same_host_calls_refl w : same_host_calls w w.
Proof. reflexivity. Qed.

Lemma same_host_calls_trans a b c :
  same_host_calls a b -> same_host_calls b c -> same_host_calls a c.
Proof. unfold same_host_calls; congruence. Qed.

Lemma host_calls_app (l : list Call) (w : World) :
  filter is_host_call l = [] ->
  host_calls (with_calls (app l) w) = host_calls w.
Proof.
  intros H. unfold host_calls. destruct w; cbn. now rewrite filter_app, H.
Qed.

Lemma release_calls_not_host (r : Refs) :
  filter is_host_call (release_calls r) = [].
Proof.
  unfold release_calls. rewrite !filter_app.
  destruct (audioContextRef r) as [[? []]|], (scriptProcessorRef r),
    (sessionRef r), (streamRef r) as [[? tracks]|]; cbn;
    rewrite ?app_nil_r; try reflexivity;
    induction tracks as [|t tracks IH]; cbn; try reflexivity;
    rewrite filter_app, IH; reflexivity.
Qed.

Lemma same_host_calls_stopListeningInternal :
  preserves same_host_calls stopListeningInternal.
Proof.
  intros w. unfold exec. rewrite stopListeningInternal_spec.
  unfold same_host_calls, host_calls. cbn.
  now rewrite filter_app, release_calls_not_host.
Qed.
#[local] Hint Resolve same_host_calls_stopListeningInternal : frames.

Ltac host_leaf :=
  try congruence;
  match goal with
  | w : World |- same_host_calls _ _ => destruct w; reflexivity
  end.

Lemma step_same_host_calls
    (v : Variant) (host : Host) (e : Event) (s s' : Sys) :
  host_hasSelectedApiKey host = false ->
  host_openSelectKey host = false ->
  step v host e s = Some s' ->
  same_host_calls (world s) (world s').
Proof.
  intros H1 H2. destruct e; step_cases; to_preserves; unfold_handlers;
    frame_open same_host_calls_refl same_host_calls_trans; host_leaf.
Qed.

(** X6.  On a host that offers neither capability the component never
    calls [window.aistudio], whatever it is asked to do. *)
Theorem no_host_call_without_capabilities
    (v : Variant) (host : Host) (evs : list Event) (s : Sys) :
  host_hasSelectedApiKey host = false ->
  host_openSelectKey host = false ->
  run v host evs initial = Some s ->
  host_calls (world s) = [].
Proof.
  intros H1 H2 Hrun.
  change (same_host_calls (world initial) (world s)).
  revert Hrun. generalize initial. induction evs as [|e evs IH];
    intros s0 Hrun; cbn in Hrun.
  - injection Hrun as <-. reflexivity.
  - destruct (step v host e s0) as [s1|] eqn:E; [|discriminate].
    eapply same_host_calls_trans;
      [eapply step_same_host_calls; eassumption|now apply IH].
Qed.

Lemma no_host_call_without_capabilities_witness :
  exists s,
    run V1 bare_host
      (capture [utf16 "Write"] ++ [SessionError 0 entity_not_found_error;
                                    ClickSelectKey])
      initial = Some s
    /\ needsApiKey (state (world s)) = true
    /\ host_calls (world s) = [].
Proof.
  eexists. split; [vm_compute; reflexivity|]. split; [reflexivity|].
  refine (@no_host_call_without_capabilities V1 bare_host
            (capture [utf16 "Write"] ++ [SessionError 0 entity_not_found_error;
                                          ClickSelectKey]) _ _ _ _);
    vm_compute; reflexivity.
Defined.

(** ** [startListening] in parts *)

Lemma startListening_unfold
    (v : Variant) (host : Host) (env : StartEnv) (w : World) :
  startListening v host env w
  = match start_gate v host env w with
    | (Returned _, w1) =>
        start_capture v env (status (state w)) (start_reset w1)
    | (Raised e, w1) => (Raised e, w1)
    end.
Proof.
  unfold startListening, start_gate, start_capture, start_reset.
  unfold bind at 1, get at 1. cbn beta iota. unfold bind at 1.
  match goal with |- context [match ?g w with _ => _ end] =>
    destruct (g w) as [[[]|e] w1] end; reflexivity.
Qed.

Lemma start_capture_unfold
    (v : Variant) (env : StartEnv) (rendered : AppStatus) (w : World) :
  start_capture v env rendered w
  = match startListening_try v env rendered w with
    | (Returned c, w1) => (Returned (Some c), w1)
    | (Raised _, w1) =>
        (Returned None, exec (handleError (msg_microphone v)) w1)
    end.
Proof.
  unfold start_capture, tryCatch, bind, ret, exec.
  destruct (startListening_try v env rendered w) as [[c|e] w1];
    [reflexivity|].
  now rewrite handleError_spec.
Qed.

(** ** The displayed transcript *)

Lemma same_display_refl w : same_display w w.
Proof. split; reflexivity. Qed.

Lemma same_display_trans a b c :
  same_display a b -> same_display b c -> same_display a c.
Proof. unfold same_display. intros [] []; split; congruence. Qed.

Lemma same_display_stopListeningInternal :
  preserves same_display stopListeningInternal.
Proof.
  intros w. unfold exec. rewrite stopListeningInternal_spec.
  destruct w as [? [] ? ?]. split; reflexivity.
Qed.
#[local] Hint Resolve same_display_stopListeningInternal : frames.

Ltac display_leaf :=
  match goal with
  | w : World |- same_display _ _ =>
      destruct w as [[] [] ? ?]; split; reflexivity
  end.

Lemma same_display_start_gate v host env :
  preserves same_display (start_gate v host env).
Proof.
  unfold start_gate. unfold_handlers.
  frame_open same_display_refl same_display_trans; display_leaf.
Qed.

Lemma same_display_start_capture v env rendered :
  preserves same_display (start_capture v env rendered).
Proof.
  unfold start_capture. unfold_handlers.
  frame_open same_display_refl same_display_trans; display_leaf.
Qed.

Lemma same_display_shows (w w' : World) :
  same_display w w' -> display_shows_buffer w -> display_shows_buffer w'.
Proof. unfold same_display, display_shows_buffer. intros [] ?. congruence. Qed.

Lemma startListening_display (v : Variant) (host : Host) (env : StartEnv)
    (w : World) :
  display_shows_buffer w ->
  display_shows_buffer (exec (startListening v host env) w).
Proof.
  intros H. unfold exec. rewrite startListening_unfold.
  pose proof (same_display_start_gate v host env w) as G. unfold exec in G.
  destruct (start_gate v host env w) as [[[]|e] w1]; cbn [snd] in *.
  - eapply same_display_shows;
      [apply (same_display_start_capture v env (status (state w)))|].
    destruct w1 as [[] [] ? ?]. reflexivity.
  - eapply same_display_shows; eassumption.
Qed.

Lemma keeps_display_shown_refl w : keeps_display_shown w w.
Proof. intros H. exact H. Qed.

Lemma keeps_display_shown_trans a b c :
  keeps_display_shown a b -> keeps_display_shown b c ->
  keeps_display_shown a c.
Proof. unfold keeps_display_shown. auto. Qed.

Lemma keeps_display_shown_stopListeningInternal :
  preserves keeps_display_shown stopListeningInternal.
Proof.
  intros w H. eapply same_display_shows; [|exact H].
  apply same_display_stopListeningInternal.
Qed.
#[local] Hint Resolve keeps_display_shown_stopListeningInternal : frames.

(** The reset empties the display and the buffer together, and the rest
    of the stretch touches neither. *)
Lemma startListening_reset_shows v env :
  preserves keeps_display_shown (startListening_reset v env).
Proof.
  intros w _.
  change (display_shows_buffer
            (exec (startListening_catch v (startListening_enter v env))
                  (start_reset w))).
  apply (@same_display_shows (start_reset w));
    [|destruct w as [[] [] ? ?]; reflexivity].
  generalize (start_reset w).
  change (preserves same_display
            (startListening_catch v (startListening_enter v env))).
  unfold_handlers.
  frame_open same_display_refl same_display_trans; display_leaf.
Qed.
#[local] Hint Resolve startListening_reset_shows : frames.

Ltac shown_leaf :=
  match goal with
  | w : World |- keeps_display_shown _ _ =>
      destruct w as [[] [] ? ?]; intros H; exact H
  end.

Lemma startListening_begin_shows v host env :
  preserves keeps_display_shown (startListening_begin v host env).
Proof.
  unfold startListening_begin, startListening_selectKey,
    handleSelectKey_open.
  unfold_setters.
  frame_open keeps_display_shown_refl keeps_display_shown_trans; shown_leaf.
Qed.

Lemma startListening_resume_shows v host rendered p env :
  preserves keeps_display_shown (startListening_resume v host rendered p env).
Proof.
  unfold startListening_resume, startListening_selectKey,
    handleSelectKey_open, handleSelectKey_settle, startListening_catch,
    startListening_request, handleError.
  unfold_setters.
  frame_open keeps_display_shown_refl keeps_display_shown_trans; shown_leaf.
Qed.

Lemma step_display (v : Variant) (host : Host) (e : Event) (s s' : Sys) :
  step v host e s = Some s' ->
  display_shows_buffer (world s) -> display_shows_buffer (world s').
Proof.
  destruct e; step_cases; intros Inv;
    try (eapply same_display_shows; [|exact Inv];
         to_preserves; unfold_handlers;
         frame_open same_display_refl same_display_trans; display_leaf).
  - now apply startListening_display.
  - exact (@startListening_begin_shows v host env (world s) Inv).
  - exact (@startListening_resume_shows v host _ _ env (world s) Inv).
  - unfold display_shows_buffer in *.
    destruct (onmessage_transcriptRef m (world s)) as [R T].
    rewrite R, T. unfold appended_by.
    destruct (serverContent m) as [[[tr|]]|]; rewrite ?app_nil_r; auto.
Qed.

(** X5.  Whatever happens, the transcript on display ([transcript]) is
    the transcript buffer ([transcriptRef]). *)
Theorem display_always_shows_buffer
    (v : Variant) (host : Host) (evs : list Event) (s : Sys) :
  run v host evs initial = Some s ->
  transcript (state (world s)) = transcriptRef (refs (world s)).
Proof.
  intros Hrun.
  apply (@run_invariant v host (fun s => display_shows_buffer (world s))
           (@step_display v host) evs initial s Hrun).
  reflexivity.
Qed.

Lemma display_always_shows_buffer_witness :
  exists s,
    run V1 studio_host (capture [utf16 "Write"; utf16 " a poem"]) initial
    = Some s
    /\ transcript (state (world s)) = utf16 "Write a poem"
    /\ transcript (state (world s)) = transcriptRef (refs (world s)).
Proof.
  eexists. split; [vm_compute; reflexivity|]. split; [reflexivity|].
  refine (@display_always_shows_buffer V1 studio_host
            (capture [utf16 "Write"; utf16 " a poem"]) _ _).
  vm_compute; reflexivity.
Defined.

(** ** How [startListening] can end *)

Lemma start_gate_status v host env :
  preserves (status_within []) (start_gate v host env).
Proof.
  unfold start_gate. unfold_handlers.
  frame_open (status_within_refl []) (@status_within_trans []); status_leaf.
Qed.

Lemma start_gate_raises (v : Variant) (host : Host) (env : StartEnv)
    (w : World) (e : JsError) :
  result (start_gate v host env) w = Raised e
  <-> match v with
      | V1 => host_hasSelectedApiKey host = true
              /\ env_hasKey (env_key env) = Raised e
      | V2 => needsApiKey (state w) = true
              /\ host_openSelectKey host = true
              /\ env_selectKey (env_key env) = Raised e
      end.
Proof.
  unfold result, start_gate, key_check, handleSelectKey_awaited,
    handleSelectKey_open, handleSelectKey_settle.
  destruct v, host as [has open], env as [[hk sk] ? ? ? ?], w as [[] ? ? ?];
    cbn [host_hasSelectedApiKey host_openSelectKey env_key env_hasKey
         env_selectKey state needsApiKey].
  - destruct has, open, hk as [[]|], sk as [[]|]; cbn;
      split; try (intros [H1 H2]); try discriminate; try tauto;
      try (intros [= ->]; auto); try (now injection H2 as ->).
  - match goal with |- context [get ?f] => unfold bind at 1, get at 1 end.
    cbn. destruct needsApiKey0, open, sk as [[]|]; cbn;
      split; try (intros (H1 & H2 & H3)); try discriminate; try tauto;
      try (intros [= ->]; auto); try (now injection H3 as ->).
Qed.

Lemma start_gate_raised_world (v : Variant) (host : Host) (env : StartEnv)
    (w w1 : World) (e : JsError) :
  start_gate v host env w = (Raised e, w1) -> only_calls_added w w1.
Proof.
  unfold start_gate, key_check, handleSelectKey_awaited,
    handleSelectKey_open, handleSelectKey_settle, only_calls_added.
  destruct v, host as [has open], env as [[hk sk] ? ? ? ?], w as [[] ? ? ?];
    cbn [host_hasSelectedApiKey host_openSelectKey env_key env_hasKey
         env_selectKey state needsApiKey].
  - destruct has, open, hk as [[]|], sk as [[]|]; cbn;
      intros H; inversion H; subst; cbn; repeat split;
      now exists [call_hasSelectedApiKey].
  - unfold bind at 1, get at 1. cbn.
    destruct needsApiKey0, open, sk as [[]|]; cbn;
      intros H; inversion H; subst; cbn; repeat split;
      now exists [call_openSelectKey].
Qed.

Lemma start_capture_returns (v : Variant) (env : StartEnv)
    (rendered : AppStatus) (w : World) :
  exists oc, result (start_capture v env rendered) w = Returned oc.
Proof.
  unfold result. rewrite start_capture_unfold.
  destruct (startListening_try v env rendered w) as [[c|e] w1];
    eexists; reflexivity.
Qed.

(** X2.  [startListening] throws exactly when its key check does: in the
    first revision when [hasSelectedApiKey()] rejects (a rejected
    [openSelectKey()] is caught), in the second when [needsApiKey] is set
    and [openSelectKey()] rejects.  When it throws it has reset nothing
    and asked for no microphone: state and refs are untouched and the
    only calls made went to the host. *)
Theorem startListening_throws_only_at_the_key_check
    (v : Variant) (host : Host) (env : StartEnv) (w : World) (e : JsError) :
  (result (startListening v host env) w = Raised e
   <-> match v with
       | V1 => host_hasSelectedApiKey host = true
               /\ env_hasKey (env_key env) = Raised e
       | V2 => needsApiKey (state w) = true
               /\ host_openSelectKey host = true
               /\ env_selectKey (env_key env) = Raised e
       end)
  /\ (result (startListening v host env) w = Raised e ->
      only_calls_added w (exec (startListening v host env) w)
      /\ forall c, In c (calls (exec (startListening v host env) w)) ->
                   In c (calls w) \/ is_host_call c = true).
Proof.
  rewrite <- (start_gate_raises v host env w e).
  unfold result, exec. rewrite startListening_unfold.
  destruct (start_gate v host env w) as [[[]|e0] w1] eqn:G; cbn [fst snd].
  - destruct (start_capture_returns v env (status (state w))
                (start_reset w1)) as [oc Hoc].
    unfold result in Hoc. rewrite Hoc.
    split; [split; discriminate|discriminate].
  - split; [split; intros [= ->]; reflexivity|]. intros _.
    pose proof (start_gate_raised_world _ _ _ _ G) as H.
    split; [exact H|].
    revert G. unfold start_gate, key_check, handleSelectKey_awaited,
      handleSelectKey_open, handleSelectKey_settle.
    destruct v, host as [has open], env as [[hk sk] ? ? ? ?],
      w as [[] ? ? ?];
      cbn [host_hasSelectedApiKey host_openSelectKey env_key env_hasKey
           env_selectKey state needsApiKey].
    + destruct has, open, hk as [[]|], sk as [[]|]; cbn;
        intros G; inversion G; subst; cbn; intros c [<-|Hc]; auto.
    + unfold bind at 1, get at 1. cbn.
      destruct needsApiKey0, open, sk as [[]|]; cbn;
        intros G; inversion G; subst; cbn; intros c [<-|Hc]; auto.
Qed.

Lemma startListening_throws_only_at_the_key_check_witness :
  let env := {| env_key := {| env_hasKey := Returned false;
                              env_selectKey := Raised {| message := None |} |};
                env_audioContext := env_audioContext studio_env;
                env_resume := Returned tt;
                env_getUserMedia := env_getUserMedia studio_env;
                env_session := env_session studio_env |} in
  let w := with_state (put_needsApiKey true) initial_world in
  result (startListening V2 studio_host env) w
  = Raised {| message := None |}
  /\ state (exec (startListening V2 studio_host env) w) = state w
  /\ refs (exec (startListening V2 studio_host env) w) = refs w.
Proof.
  cbv zeta.
  match goal with |- result (startListening _ _ ?env) ?w = _ /\ _ =>
    destruct (startListening_throws_only_at_the_key_check
                V2 studio_host env w {| message := None |}) as [I W]
  end.
  assert (R : result (startListening V2 studio_host
                {| env_key := {| env_hasKey := Returned false;
                                 env_selectKey := Raised {| message := None |} |};
                   env_audioContext := env_audioContext studio_env;
                   env_resume := Returned tt;
                   env_getUserMedia := env_getUserMedia studio_env;
                   env_session := env_session studio_env |})
                (with_state (put_needsApiKey true) initial_world)
              = Raised {| message := None |}).
  { apply I. repeat split. }
  split; [exact R|]. destruct (W R) as [(S & F & _) _]. split; assumption.
Defined.

(** ** [startListening], stretch by stretch *)

Lemma handleError_returns (msg : jsstring) (w : World) :
  handleError msg w = (Returned tt, exec (handleError msg) w).
Proof. unfold exec. now rewrite handleError_spec. Qed.

(** Take a stretch apart along the answers of the environment. *)
Ltac crack H :=
  repeat (cbn -[msg_microphone handleError exec] in H;
          rewrite ?handleError_returns in H;
          match type of H with
          | context [match ?x with _ => _ end] => is_var x; destruct x
          | context [ctx_state ?x] => is_var x; destruct x
          end);
  cbn -[msg_microphone handleError exec] in H;
  rewrite ?handleError_returns in H;
  cbn -[msg_microphone handleError exec] in H.

(** What an equation [stretch w = (Returned Over, w')] leaves once the
    stretch is taken apart. *)
Ltac settle_over H :=
  match type of H with
  | (Returned Over, ?a) = (Returned Over, ?b) =>
      let E := fresh in
      assert (E : a = b) by exact (f_equal snd H); clear H; subst
  | (Returned (Installed ?c), ?a) = (Returned (Installed ?d), ?b) =>
      let E := fresh in
      let F := fresh in
      assert (E : a = b) by exact (f_equal snd H);
      assert (F : installed (Installed c) = installed (Installed d))
        by exact (f_equal (fun x => match fst x with
                                    | Returned n => installed n
                                    | Raised _ => None
                                    end) H);
      cbn [installed] in F; injection F as F;
      clear H; subst
  | _ => discriminate H
  end.

Ltac open_stretch :=
  unfold_stretches;
  unfold handleSelectKey_settle, bind, tryCatch, ret, raise, await, get,
    modify, call, setError, setTranscript, setOptimizedPrompt,
    setNeedsApiKey.

(** The whole run is its stretches, one straight after the other. *)
Lemma startListening_is_its_stretches
    (v : Variant) (host : Host) (env : StartEnv) (w : World) :
  startListening v host env w = startListening_stretches v host env w.
Proof.
  unfold startListening, startListening_stretches, startListening_try,
    key_check, handleSelectKey_awaited, startListening_continue.
  open_stretch.
  destruct v, host as [has open], env as [[hk sk] ac rs gm se],
    w as [[] [] ? ?];
    repeat (cbn -[msg_microphone handleError exec];
            rewrite ?handleError_returns;
            match goal with
            | |- context [match ?x with _ => _ end] => is_var x; destruct x
            | |- context [ctx_state ?x] => is_var x; destruct x
            end);
    cbn -[msg_microphone handleError exec];
    rewrite ?handleError_returns;
    reflexivity.
Qed.

(** A stretch that ends in the [catch] has run [handleError] on the refs
    as it found them, but for the stream it may just have been granted. *)
Lemma startListening_begin_over
    (v : Variant) (host : Host) (env : StartEnv) (w w' : World) :
  startListening_begin v host env w = (Returned Over, w') ->
  exists w1,
    w' = exec (handleError (msg_microphone v)) w1
    /\ same_context_node_session w w1.
Proof.
  open_stretch.
  destruct v, host as [has open], env as [[hk sk] ac rs gm se],
    w as [[] [] ? ?]; intros H; crack H; settle_over H;
    eexists; (split; [reflexivity|]); repeat split.
Qed.

Lemma startListening_resume_over
    (v : Variant) (host : Host) (rendered : AppStatus) (p : StartPoint)
    (env : StartEnv) (w w' : World) :
  startListening_resume v host rendered p env w = (Returned Over, w') ->
  exists w1,
    w' = exec (handleError (msg_microphone v)) w1
    /\ same_context_node_session w w1
    /\ (forall created st,
          p = at_getUserMedia created ->
          env_getUserMedia env = Returned st ->
          streamRef (refs w1) = Some st).
Proof.
  open_stretch.
  destruct v, host as [has open], env as [[hk sk] ac rs gm se],
    w as [[] [] ? ?], p as [| |ctx|[ctx|]]; intros H; crack H;
    settle_over H;
    eexists; (split; [reflexivity|]); repeat split;
    intros created st E G; try discriminate E; try discriminate G;
    cbn in G; now injection G as ->.
Qed.

Lemma release_calls_but_stream (r r1 : Refs) (c : Call) :
  audioContextRef r1 = audioContextRef r ->
  scriptProcessorRef r1 = scriptProcessorRef r ->
  sessionRef r1 = sessionRef r ->
  In c (release_calls (put_streamRef None r)) -> In c (release_calls r1).
Proof.
  unfold release_calls. cbn [put_streamRef audioContextRef streamRef
    scriptProcessorRef sessionRef]. intros -> -> -> H.
  rewrite !in_app_iff in *. cbn [In] in H. tauto.
Qed.

Lemma handleError_reports_and_releases (v : Variant) (w w1 : World) :
  same_context_node_session w w1 ->
  reports_and_releases v w (exec (handleError (msg_microphone v)) w1).
Proof.
  intros (A & N & S). unfold reports_and_releases, exec.
  rewrite handleError_spec.
  cbn [snd state refs calls status error put_status put_error].
  split; [reflexivity|]. split; [reflexivity|].
  split; [apply released_clear|].
  intros c H. apply in_or_app. left.
  eapply release_calls_but_stream; eassumption.
Qed.

Lemma handleError_stops_tracks (msg : jsstring) (w1 : World)
    (st : MediaStream) (t : nat) :
  streamRef (refs w1) = Some st -> In t (getTracks st) ->
  In (call_track_stop t) (calls (exec (handleError msg) w1)).
Proof.
  intros S T. apply handleError_releases. unfold release_calls. rewrite S.
  rewrite !in_app_iff. right. left. rewrite <- in_rev. now apply in_map.
Qed.

Lemma result_exec {A} (m : M A) (w : World) (a : A) :
  result m w = Returned a -> m w = (Returned a, exec m w).
Proof. unfold result, exec. destruct (m w) as [o w']. cbn. now intros ->. Qed.

(** X3.  When a stretch of [startListening] ends in the [catch] (no audio
    context, no microphone permission, ...), then, whatever happened
    between the stretches of the run: no callbacks are installed, the
    status is Error with the microphone message, all four resource refs
    are null, the context, the node and the session the refs held have
    been released, and so have the tracks of the stream this stretch was
    granted (the second revision, whose context is created after the
    grant). *)
Theorem start_failure_reports_and_releases
    (v : Variant) (host : Host) (rendered : AppStatus) (p : StartPoint)
    (env : StartEnv) (w : World) :
  (result (startListening_begin v host env) w = Returned Over ->
   reports_and_releases v w (exec (startListening_begin v host env) w))
  /\ (result (startListening_resume v host rendered p env) w = Returned Over ->
      let w' := exec (startListening_resume v host rendered p env) w in
      reports_and_releases v w w'
      /\ forall created st t,
           p = at_getUserMedia created ->
           env_getUserMedia env = Returned st ->
           In t (getTracks st) ->
           In (call_track_stop t) (calls w')).
Proof.
  split; intros H; apply result_exec in H.
  - destruct (startListening_begin_over _ _ _ _ H) as (w1 & -> & S).
    now apply handleError_reports_and_releases.
  - cbn zeta.
    destruct (startListening_resume_over _ _ _ _ _ _ H) as (w1 & -> & S & G).
    split; [now apply handleError_reports_and_releases|].
    intros created st t Hp Hg Ht.
    eapply handleError_stops_tracks; [|exact Ht]. eapply G; eassumption.
Qed.

Lemma start_failure_reports_and_releases_witness :
  let env := {| env_key := env_key studio_env;
                env_audioContext := Raised {| message := None |};
                env_resume := Returned tt;
                env_getUserMedia := env_getUserMedia studio_env;
                env_session := env_session studio_env |} in
  let w' := exec (startListening_resume V2 studio_host IDLE
                    (at_getUserMedia None) env) capturing_world in
  status (state w') = ERROR
  /\ released (refs w')
  /\ In (call_track_stop 7) (calls w')
  /\ In (call_context_close 1) (calls w').
Proof.
  cbv zeta.
  match goal with |- context [startListening_resume _ _ _ ?p ?env] =>
    destruct (proj2 (@start_failure_reports_and_releases
                       V2 studio_host IDLE p env capturing_world))
      as [(S & _ & R & C) T]
  end.
  - vm_compute; reflexivity.
  - split; [exact S|]. split; [exact R|]. split.
    + apply (T None {| stream_id := 2; getTracks := [7] |} 7);
        [reflexivity|reflexivity|now left].
    + apply C. vm_compute. tauto.
Defined.

Lemma startListening_begin_installs_nothing
    (v : Variant) (host : Host) (env : StartEnv) (w : World)
    (c : Connection) :
  result (startListening_begin v host env) w <> Returned (Installed c).
Proof.
  intros H. apply result_exec in H.
  pose proof (@startListening_begin_captures v host env IDLE _ _ _ H c
                eq_refl) as I.
  pose proof (@startListening_begin_captures v host env LISTENING _ _ _ H c
                eq_refl) as L.
  congruence.
Qed.

Lemma startListening_resume_installed
    (v : Variant) (host : Host) (rendered : AppStatus) (p : StartPoint)
    (env : StartEnv) (w w' : World) (c : Connection) :
  startListening_resume v host rendered p env w = (Returned (Installed c), w') ->
  installs_over env rendered p c w w'.
Proof.
  open_stretch. unfold installs_over.
  destruct v, host as [has open], env as [[hk sk] ac rs gm se],
    w as [[] [] ? ?], p as [| |ctx|[ctx|]]; intros H; crack H;
    settle_over H; eexists; repeat split.
Qed.

(** X4.  The callbacks of a run of [startListening] are installed by the
    stretch that begins when [getUserMedia] resolves, and by no other.
    That stretch stores the stream it was granted, makes
    [ai.live.connect] its last call and leaves the state (so the status:
    Listening waits for [onopen]), the buffer, the node and the session
    as it found them.  The callbacks close over the status of the render
    that created the run.  In the second revision the context is created
    in this stretch and stored; in the first the callbacks use the
    context created before the await, and [audioContextRef] stays as the
    stretch found it, whichever context it holds by then. *)
Theorem start_installs_over_the_granted_stream
    (v : Variant) (host : Host) (rendered : AppStatus) (p : StartPoint)
    (env : StartEnv) (w : World) (c : Connection) :
  result (startListening_begin v host env) w <> Returned (Installed c)
  /\ (result (startListening_resume v host rendered p env) w
      = Returned (Installed c) ->
      installs_over env rendered p c w
        (exec (startListening_resume v host rendered p env) w)).
Proof.
  split; [apply startListening_begin_installs_nothing|].
  intros H. apply result_exec in H.
  now apply (startListening_resume_installed _ _ _ _ _ _ H).
Qed.

Lemma start_installs_over_the_granted_stream_witness :
  let other := {| ctx_id := 11; ctx_state := running |} in
  let mine := {| ctx_id := 1; ctx_state := running |} in
  let w := with_refs (put_audioContextRef (Some other)) initial_world in
  let m := startListening_resume V1 studio_host IDLE
             (at_getUserMedia (Some mine)) studio_env in
  exists c,
    result m w = Returned (Installed c)
    /\ conn_audioCtx c = mine
    /\ audioContextRef (refs (exec m w)) = Some other
    /\ streamRef (refs (exec m w)) = Some {| stream_id := 2; getTracks := [7] |}
    /\ status (state (exec m w)) = IDLE.
Proof.
  cbv zeta. eexists.
  match goal with |- result ?m ?w = _ /\ _ =>
    assert (R : result m w
                = Returned (Installed
                    {| conn_status := IDLE;
                       conn_audioCtx := {| ctx_id := 1; ctx_state := running |};
                       conn_stream := {| stream_id := 2; getTracks := [7] |};
                       conn_session := {| session_id := 3;
                                          close_raises := None |} |}))
      by (vm_compute; reflexivity);
    split; [exact R|];
    destruct (proj2 (@start_installs_over_the_granted_stream
                       V1 studio_host IDLE _ studio_env w _) R)
      as (created & P & G & St & Se & S & T & SR & N & SS & C & A)
  end.
  injection P as <-. destruct A as [A1 A2].
  split; [exact A1|]. split; [rewrite A2; reflexivity|].
  split; [exact SR|]. rewrite S. reflexivity.
Defined.

(** ** Submitting typed text *)

Lemma same_refs_and_history_refl w : same_refs_and_history w w.
Proof. repeat split. Qed.

Lemma same_refs_and_history_trans a b c :
  same_refs_and_history a b -> same_refs_and_history b c ->
  same_refs_and_history a c.
Proof.
  unfold same_refs_and_history. intros (?&?&?) (?&?&?).
  repeat split; congruence.
Qed.

Lemma start_gate_refs_and_history v host env :
  preserves same_refs_and_history (start_gate v host env).
Proof.
  unfold start_gate. unfold_handlers.
  frame_open same_refs_and_history_refl same_refs_and_history_trans;
    match goal with
    | w : World |- _ => destruct w as [[] [] ? ?]; repeat split
    end.
Qed.

Lemma handleManualSubmit_unfold (host : Host) (env : KeyEnv) (w : World) :
  handleManualSubmit host env w
  = let t := trim (manualText (state w)) in
    if truthy t then
      match start_gate V1 host (key_only env) w with
      | (Returned _, w1) =>
          (Returned (Some {| rawInput := t; fullText := [] |}),
           exec (optimizePrompt_begin V1 t) w1)
      | (Raised e, w1) => (Raised e, w1)
      end
    else (Returned None, w).
Proof.
  unfold handleManualSubmit. unfold bind at 1, get at 1. cbn beta iota zeta.
  destruct (truthy (trim (manualText (state w)))); [|reflexivity].
  change (start_gate V1 host (key_only env)) with (key_check V1 host env).
  unfold bind at 1.
  destruct (key_check V1 host env w) as [[[]|e] w1]; [|reflexivity].
  unfold bind, exec. rewrite optimizePrompt_begin_spec. reflexivity.
Qed.

(** X7.  Everything [handleManualSubmit] can do.  On blank text it does
    nothing at all, not even the key check.  Otherwise, unless
    [hasSelectedApiKey()] rejects (then only host calls were made), it
    starts one refinement run on the trimmed text: status Optimizing,
    display and error cleared, the request as its last call; it leaves
    the history and every ref alone. *)
Theorem handleManualSubmit_outcomes
    (host : Host) (env : KeyEnv) (w : World) :
  let t := trim (manualText (state w)) in
  let w' := exec (handleManualSubmit host env) w in
  match result (handleManualSubmit host env) w with
  | Returned None => t = [] /\ w' = w
  | Returned (Some r) =>
      t <> [] /\ r = {| rawInput := t; fullText := [] |}
      /\ status (state w') = OPTIMIZING
      /\ optimizedPrompt (state w') = []
      /\ error (state w') = None
      /\ history (state w') = history (state w)
      /\ refs w' = refs w
      /\ hd_error (calls w')
         = Some (call_generateContentStream (contents V1 t))
  | Raised e =>
      t <> [] /\ host_hasSelectedApiKey host = true
      /\ env_hasKey env = Raised e
      /\ only_calls_added w w'
  end.
Proof.
  cbn zeta. unfold result, exec. rewrite handleManualSubmit_unfold.
  cbn zeta. destruct (truthy (trim (manualText (state w)))) eqn:T.
  - apply truthy_nonempty in T.
    pose proof (start_gate_refs_and_history V1 host (key_only env) w) as F.
    pose proof (start_gate_raises V1 host (key_only env) w) as R.
    pose proof (@start_gate_raised_world V1 host (key_only env) w) as W.
    unfold exec, result in F, R.
    destruct (start_gate V1 host (key_only env) w) as [[[]|e] w1];
      cbn [fst snd] in *.
    + destruct F as (Fr & Fh & _).
      unfold exec. rewrite optimizePrompt_begin_spec.
      cbn [snd state refs calls status optimizedPrompt error history
           put_error put_optimizedPrompt put_status hd_error].
      repeat split; auto.
    + destruct (proj1 (R e) eq_refl) as [H1 H2].
      repeat split; auto; apply (W w1 e eq_refl).
  - cbn [fst snd]. split; [|reflexivity].
    destruct (trim (manualText (state w))); [reflexivity|discriminate].
Qed.

(** ** Errors that do not ask for a credential *)

Lemma msg_bad_key_V2 : msg_refine_bad_key V2 = msg_refine_other V2.
Proof. vm_compute. reflexivity. Qed.

(** X9.  An error whose message does not include "Requested entity was
    not found." leaves the credential flag alone and makes no host call,
    in [onerror] and in the [catch] of [optimizePrompt] alike; the status
    is Error, the resources are released, and the first revision tells an
    invalid API key from other refinement failures by its message. *)
Theorem error_without_marker_leaves_credentials_alone
    (v : Variant) (host : Host) (e : JsError) (w : World) :
  message_includes e entity_not_found = false ->
  let w1 := exec (onerror v host e) w in
  let w2 := exec (optimizePrompt_catch v host e) w in
  (needsApiKey (state w1) = needsApiKey (state w)
   /\ host_calls w1 = host_calls w
   /\ keyFlows w1 = keyFlows w
   /\ status (state w1) = ERROR
   /\ error (state w1) = Some (msg_voice_error v)
   /\ released (refs w1))
  /\ (needsApiKey (state w2) = needsApiKey (state w)
      /\ host_calls w2 = host_calls w
      /\ keyFlows w2 = keyFlows w
      /\ status (state w2) = ERROR
      /\ error (state w2)
         = Some (if message_includes e key_not_valid
                 then msg_refine_bad_key v else msg_refine_other v)
      /\ released (refs w2)).
Proof.
  intros H. cbn zeta. split.
  - rewrite (exec_unfold (onerror v host e)), onerror_spec, H.
    rewrite handleError_spec. cbn [snd state refs calls keyFlows].
    unfold host_calls. cbn [calls].
    rewrite filter_app, release_calls_not_host.
    destruct w as [[] ? ? ?]. repeat split.
  - assert (X : optimizePrompt_catch v host e w
                = handleError (if message_includes e key_not_valid
                               then msg_refine_bad_key v
                               else msg_refine_other v) w).
    { unfold optimizePrompt_catch. rewrite H.
      destruct v, (message_includes e key_not_valid);
        rewrite ?msg_bad_key_V2; reflexivity. }
    rewrite (exec_unfold (optimizePrompt_catch v host e)), X.
    rewrite handleError_spec. cbn [snd state refs calls keyFlows].
    unfold host_calls. cbn [calls].
    rewrite filter_app, release_calls_not_host.
    destruct w as [[] ? ? ?]. repeat split.
Qed.

Lemma error_without_marker_leaves_credentials_alone_witness :
  let e := {| message := Some (utf16 "API key not valid. Pass a valid key.") |} in
  let w2 := exec (optimizePrompt_catch V1 studio_host e) initial_world in
  needsApiKey (state w2) = false
  /\ host_calls w2 = []
  /\ error (state w2) = Some (msg_refine_bad_key V1).
Proof.
  cbv zeta.
  match goal with |- context [optimizePrompt_catch V1 studio_host ?e] =>
    assert (H : message_includes e entity_not_found = false)
      by (vm_compute; reflexivity);
    destruct (error_without_marker_leaves_credentials_alone
                V1 studio_host e initial_world H)
      as [_ (N & C & _ & _ & E & _)]
  end.
  split; [exact N|]. split; [exact C|].
  rewrite E. f_equal.
Defined.

(** ** The refined text on display *)

Lemma same_optimizedPrompt_refl w : same_optimizedPrompt w w.
Proof. reflexivity. Qed.

Lemma same_optimizedPrompt_trans a b c :
  same_optimizedPrompt a b -> same_optimizedPrompt b c ->
  same_optimizedPrompt a c.
Proof. unfold same_optimizedPrompt; congruence. Qed.

Lemma same_optimizedPrompt_stopListeningInternal :
  preserves same_optimizedPrompt stopListeningInternal.
Proof.
  intros w. unfold exec. rewrite stopListeningInternal_spec. reflexivity.
Qed.
#[local] Hint Resolve same_optimizedPrompt_stopListeningInternal : frames.

Ltac prompt_leaf :=
  match goal with
  | w : World |- same_optimizedPrompt _ _ =>
      destruct w as [[] ? ? ?]; reflexivity
  end.

Lemma optimizePrompt_end_keeps_display
    (v : Variant) (host : Host) (r : Refinement) (fin : StreamEnd) :
  preserves same_optimizedPrompt
    (match fin with
     | Exhausted now_id now_timestamp =>
         optimizePrompt_finish r now_id now_timestamp
     | Failed e => optimizePrompt_catch v host e
     end).
Proof.
  destruct fin; unfold_handlers;
    frame_open same_optimizedPrompt_refl same_optimizedPrompt_trans;
    prompt_leaf.
Qed.

Lemma optimizePrompt_loop_display (v : Variant)
    (chunks : list GenerateContentResponse) :
  forall (r : Refinement) (w : World),
    optimizedPrompt (state w) = fullText r ->
    exists r' w',
      optimizePrompt_loop v r chunks w = (Returned r', w')
      /\ optimizedPrompt (state w') = fullText r'
      /\ fullText r' = fullText r ++ List.concat (map (delta v) chunks).
Proof.
  induction chunks as [|c chunks IH]; intros r w H.
  - exists r, w. cbn. now rewrite app_nil_r.
  - cbn [optimizePrompt_loop]. unfold bind at 1.
    assert (S : exists w1,
               optimizePrompt_chunk v r c w
               = (Returned {| rawInput := rawInput r;
                              fullText := fullText r ++ delta v c |}, w1)
               /\ optimizedPrompt (state w1) = fullText r ++ delta v c).
    { unfold optimizePrompt_chunk, delta.
      destruct v; [destruct (text c) as [[|a t]|]|]; cbn;
        rewrite ?app_nil_r; eexists;
        (split; [try reflexivity; destruct r; reflexivity|]);
        try exact H; destruct w as [[] ? ? ?]; reflexivity. }
    destruct S as (w1 & E & D). rewrite E.
    destruct (IH {| rawInput := rawInput r;
                    fullText := fullText r ++ delta v c |} w1 D)
      as (r' & w' & L & D' & F).
    exists r', w'. split; [exact L|]. split; [exact D'|].
    rewrite F. cbn. now rewrite app_assoc.
Qed.


(** ** The inputs of stored items *)

Lemma deliver_refinements {A} (m : M A) (k : A -> Sys -> Sys) (s : Sys) :
  (forall a s0, refinements (k a s0) = refinements s0) ->
  refinements (deliver m k s) = refinements s.
Proof.
  intros H. unfold deliver.
  destruct (m (world s)) as [[a|e] w']; [rewrite H|]; reflexivity.
Qed.

Lemma deliver_add_refinement (Q : option Refinement -> Prop)
    (m : M (option Refinement)) (s : Sys) :
  yields (fun o => forall r, o = Some r -> Q (Some r)) m ->
  Forall Q (refinements s) ->
  Forall Q (refinements (deliver m add_refinement s)).
Proof.
  intros Y H. unfold deliver.
  destruct (m (world s)) as [[[r|]|e] w'] eqn:E; cbn; auto.
  apply Forall_app. split; [exact H|]. constructor; [|constructor].
  eapply Y; [exact E|reflexivity].
Qed.

Lemma passes_weaken (P Q : jsstring -> Prop) (m : M (option Refinement)) :
  (forall t, P t -> Q t) -> yields (passes P) m -> yields (passes Q) m.
Proof. intros I Y w a w' E r ->. apply I. now apply (Y w _ w' E). Qed.

Lemma yields_passes_some (P : jsstring -> Prop) (m : M (option Refinement)) :
  yields (passes P) m ->
  yields (fun o => forall r, o = Some r -> passes P (Some r)) m.
Proof. intros Y w a w' E r ->. now apply (Y w _ w' E). Qed.

Lemma onclose_passes (P : jsstring -> Prop) (v : Variant) (c : Connection) :
  yields (passes P) (stopListening v) -> yields (passes P) (onclose v c).
Proof.
  intros Y. unfold onclose.
  destruct (AppStatus_eqb (conn_status c) LISTENING);
    [exact Y|apply passes_none].
Qed.

Lemma optimizePrompt_chunk_keeps_input (v : Variant) (r : Refinement)
    (c : GenerateContentResponse) :
  yields (fun r' => rawInput r' = rawInput r) (optimizePrompt_chunk v r c).
Proof.
  intros w a w'. destruct (optimizePrompt_chunk_spec v r c w) as [p ->].
  now intros [= <- _].
Qed.

Lemma suspended_run_in (r : nat) (s : Sys) (rf : Refinement) :
  suspended_run r s = Some rf -> In (Some rf) (refinements s).
Proof.
  unfold suspended_run.
  destruct (nth_error (refinements s) r) as [[x|]|] eqn:E;
    intros [= <-]. eapply nth_error_In; eassumption.
Qed.

Section Inputs.

Variable v : Variant.
Variable host : Host.
Variable P : jsstring -> Prop.
Hypothesis stop_passes : yields (passes P) (stopListening v).
Hypothesis refine_passes :
  forall env, yields (passes P) (handleManualSubmit host env).
Hypothesis regenerate_passes : v = V2 -> yields (passes P) handleRegenerate.

Lemma step_inputs_satisfy (e : Event) (s s' : Sys) :
  step v host e s = Some s' -> inputs_satisfy P s -> inputs_satisfy P s'.
Proof.
  intros Hstep [R H]. split.
  - revert Hstep. destruct e; cbn [step]; unfold guard;
      repeat match goal with
             | |- context [match ?x with _ => _ end] =>
                 match x with
                 | context [deliver] => fail 1
                 | _ => destruct x eqn:?
                 end
             end; intros [= <-];
      try (rewrite deliver_refinements;
           [exact R|intros; try match goal with
                                | a : option _ |- _ => destruct a
                                | a : StartNext |- _ => destruct a
                                end; reflexivity]);
      try (apply deliver_add_refinement; [apply yields_passes_some|exact R]).
    + exact stop_passes.
    + apply refine_passes.
    + apply regenerate_passes. unfold can_regenerate in *.
      destruct v; [discriminate|reflexivity].
    + now apply onclose_passes.
    + unfold deliver.
      destruct (optimizePrompt_chunk v r0 c (world s)) as [[rf'|e] w'] eqn:E;
        cbn; [|exact R].
      apply Forall_replace_nth; [|exact R].
      intros x [= <-].
      rewrite (@optimizePrompt_chunk_keeps_input v r0 c _ _ _ E).
      rewrite Forall_forall in R.
      eapply (R (Some r0)); [|reflexivity].
      eapply suspended_run_in; eassumption.
    + rewrite deliver_refinements by reflexivity. cbn.
      apply Forall_replace_nth; [discriminate|exact R].
    + rewrite deliver_refinements by reflexivity. cbn.
      apply Forall_replace_nth; [discriminate|exact R].
  - rewrite (step_history _ _ _ _ Hstep). apply Forall_app. split; [|exact H].
    destruct e; cbn [stored_by]; try constructor.
    destruct (suspended_run r s) as [rf|] eqn:E; constructor; [|constructor].
    cbn. rewrite Forall_forall in R.
    eapply (R (Some rf)); [|reflexivity].
    eapply suspended_run_in; eassumption.
Qed.

Lemma run_inputs_satisfy (evs : list Event) (s : Sys) :
  run v host evs initial = Some s -> inputs_satisfy P s.
Proof.
  intros Hrun.
  apply (@run_invariant v host (inputs_satisfy P) step_inputs_satisfy
           evs initial s Hrun).
  split; constructor.
Qed.

End Inputs.

Lemma trimmed_nonempty_nonblank (t : jsstring) :
  trimmed_nonempty t -> nonblank t.
Proof. unfold nonblank. intros [N T]. now rewrite T. Qed.

(** X11.  No item in the history has a blank [rawInput]; in the first
    revision every stored [rawInput] is trimmed text. *)
Theorem stored_inputs_are_never_blank
    (v : Variant) (host : Host) (evs : list Event) (s : Sys)
    (item : HistoryItem.t) :
  run v host evs initial = Some s ->
  In item (history (state (world s))) ->
  trim (HistoryItem.rawInput item) <> []
  /\ (v = V1 ->
      trim (HistoryItem.rawInput item) = HistoryItem.rawInput item).
Proof.
  intros Hrun Hin. split.
  - assert (I : inputs_satisfy nonblank s).
    { apply (@run_inputs_satisfy v host nonblank) with (evs := evs);
        auto.
      - eapply passes_weaken; [apply trimmed_nonempty_nonblank|].
        apply stopListening_passes_trimmed.
      - intros env. eapply passes_weaken; [apply trimmed_nonempty_nonblank|].
        apply handleManualSubmit_passes_trimmed.
      - intros _. apply handleRegenerate_passes_nonblank. }
    destruct I as [_ H]. rewrite Forall_forall in H. exact (H item Hin).
  - intros ->.
    assert (I : inputs_satisfy trimmed_nonempty s).
    { apply (@run_inputs_satisfy V1 host trimmed_nonempty) with (evs := evs);
        auto.
      - apply stopListening_passes_trimmed.
      - intros env. apply handleManualSubmit_passes_trimmed.
      - discriminate. }
    destruct I as [_ H]. rewrite Forall_forall in H.
    exact (proj2 (H item Hin)).
Qed.

Lemma stored_inputs_are_never_blank_witness :
  exists s item,
    run V2 studio_host
      (capture [utf16 " Write"; utf16 " a poem"]
       ++ [ClickStop; StreamChunk 0 {| text := Some (utf16 "# Poem") |};
           StreamExhausted 0 1730000000000 1730000000000;
           ClickRegenerate;
           StreamExhausted 1 1730000000500 1730000000500]) initial = Some s
    /\ hd_error (history (state (world s))) = Some item
    /\ HistoryItem.rawInput item = utf16 " Write a poem"
    /\ trim (HistoryItem.rawInput item) <> [].
Proof.
  do 2 eexists. split; [vm_compute; reflexivity|].
  split; [reflexivity|]. split; [reflexivity|].
  refine (proj1 (@stored_inputs_are_never_blank V2 studio_host
            (capture [utf16 " Write"; utf16 " a poem"]
             ++ [ClickStop; StreamChunk 0 {| text := Some (utf16 "# Poem") |};
                 StreamExhausted 0 1730000000000 1730000000000;
                 ClickRegenerate;
                 StreamExhausted 1 1730000000500 1730000000500])
            _ _ _ _)).
  - vm_compute; reflexivity.
  - left. reflexivity.
Defined.

(** ** Chunks that arrive between other events *)

Lemma run_snoc (v : Variant) (host : Host) (evs : list Event) (e : Event) :
  forall s s',
    run v host (evs ++ [e]) s = Some s' ->
    exists s1, run v host evs s = Some s1 /\ step v host e s1 = Some s'.
Proof.
  induction evs as [|e0 evs IH]; intros s s' H; cbn in H.
  - destruct (step v host e s) as [s1|] eqn:E; [|discriminate].
    injection H as <-. exists s. split; [reflexivity|exact E].
  - cbn. destruct (step v host e0 s) as [s0|]; [|discriminate].
    now apply IH.
Qed.

Lemma chunks_to_snoc (k : nat) (evs : list Event) (e : Event) :
  chunks_to k (evs ++ [e]) = chunks_to k evs ++ chunk_to k e.
Proof. unfold chunks_to. rewrite flat_map_app. cbn. now rewrite app_nil_r. Qed.

Lemma replace_nth_length {A} (n : nat) (x : A) (l : list A) :
  length (replace_nth n x l) = length l.
Proof.
  revert n. induction l as [|y l IH]; intros [|n]; cbn; auto.
Qed.

Lemma nth_error_replace_nth {A} (n k : nat) (x : A) (l : list A) :
  nth_error (replace_nth n x l) k
  = if Nat.eqb n k
    then match nth_error l k with Some _ => Some x | None => None end
    else nth_error l k.
Proof.
  revert n k. induction l as [|y l IH]; intros [|n] [|k]; cbn; auto.
  - now destruct (Nat.eqb n k).
Qed.

Lemma begins_empty_begin (v : Variant) (input : jsstring) :
  yields begins_empty (r <- optimizePrompt_begin v input ;; ret (Some r)).
Proof.
  intros w a w'. unfold bind. rewrite optimizePrompt_begin_spec.
  intros [= <- _] r [= <-]. reflexivity.
Qed.

Lemma begins_empty_none : yields begins_empty (ret None).
Proof. apply yields_ret. discriminate. Qed.

Lemma begins_empty_stopListening (v : Variant) :
  yields begins_empty (stopListening v).
Proof.
  intros w a w'. rewrite stopListening_spec. cbn zeta.
  destruct (truthy _); intros [= <- _] r [= <-]; reflexivity.
Qed.

Lemma begins_empty_onclose (v : Variant) (c : Connection) :
  yields begins_empty (onclose v c).
Proof.
  unfold onclose. destruct (AppStatus_eqb (conn_status c) LISTENING);
    [apply begins_empty_stopListening|apply begins_empty_none].
Qed.

Lemma begins_empty_handleManualSubmit (host : Host) (env : KeyEnv) :
  yields begins_empty (handleManualSubmit host env).
Proof.
  intros w a w'. rewrite handleManualSubmit_unfold. cbn zeta.
  destruct (truthy _).
  - destruct (start_gate V1 host (key_only env) w) as [[[]|e] w1];
      [|discriminate].
    intros [= <- _] r [= <-]. reflexivity.
  - intros [= <- _]. discriminate.
Qed.

Lemma begins_empty_handleRegenerate : yields begins_empty handleRegenerate.
Proof.
  intros w. unfold handleRegenerate. unfold bind at 1, get. cbn beta iota.
  destruct (truthy (trim (transcriptRef (refs w)))).
  - apply begins_empty_begin.
  - apply begins_empty_none.
Qed.

Lemma deliver_add_refinement_appends (m : M (option Refinement)) (s : Sys) :
  yields begins_empty m ->
  exists new,
    refinements (deliver m add_refinement s) = refinements s ++ new
    /\ Forall begins_empty new.
Proof.
  intros Y. unfold deliver.
  destruct (m (world s)) as [[[r|]|e] w'] eqn:E; cbn.
  - exists [Some r]. split; [reflexivity|]. constructor; [|constructor].
    eapply Y; exact E.
  - exists []. now rewrite app_nil_r.
  - exists []. now rewrite app_nil_r.
Qed.

Lemma suspended_run_refinements (k : nat) (s s' : Sys) :
  refinements s' = refinements s -> suspended_run k s' = suspended_run k s.
Proof. unfold suspended_run. now intros ->. Qed.

Lemma track_append (v : Variant) (evs : list Event) (e : Event)
    (s s' : Sys) (new : list (option Refinement)) :
  (forall k, chunk_to k e = []) ->
  refinements s' = refinements s ++ new ->
  Forall begins_empty new ->
  runs_track_chunks v evs s -> runs_track_chunks v (evs ++ [e]) s'.
Proof.
  intros He Hr Hnew [T1 T2]. split.
  - intros k rf H. rewrite chunks_to_snoc, He, app_nil_r.
    unfold suspended_run in H. rewrite Hr in H.
    destruct (Nat.lt_ge_cases k (length (refinements s))) as [L|L].
    + rewrite nth_error_app1 in H by exact L. now apply T1.
    + rewrite nth_error_app2 in H by exact L.
      destruct (nth_error new (k - length (refinements s))) as [[x|]|] eqn:E;
        try discriminate.
      injection H as ->. apply nth_error_In in E.
      rewrite Forall_forall in Hnew. rewrite (Hnew _ E rf eq_refl).
      now rewrite (T2 k L).
  - intros k L. rewrite chunks_to_snoc, He, app_nil_r. apply T2.
    rewrite Hr, length_app in L. lia.
Qed.

Lemma track_replace (v : Variant) (evs : list Event) (e : Event)
    (s s' : Sys) (r : nat) (x : option Refinement) (rf : Refinement) :
  suspended_run r s = Some rf ->
  refinements s' = replace_nth r x (refinements s) ->
  (forall k, k <> r -> chunk_to k e = []) ->
  (forall rf', x = Some rf' ->
     fullText rf' = fullText rf ++ List.concat (map (delta v) (chunk_to r e))) ->
  runs_track_chunks v evs s -> runs_track_chunks v (evs ++ [e]) s'.
Proof.
  intros Hrun Hr He Hx [T1 T2].
  assert (Lr : r < length (refinements s)).
  { apply nth_error_Some. unfold suspended_run in Hrun.
    destruct (nth_error (refinements s) r); [discriminate|discriminate Hrun]. }
  split.
  - intros k rf0 H. rewrite chunks_to_snoc.
    unfold suspended_run in H. rewrite Hr, nth_error_replace_nth in H.
    destruct (Nat.eqb r k) eqn:Ek.
    + apply Nat.eqb_eq in Ek. subst k.
      destruct (nth_error (refinements s) r); [|discriminate].
      destruct x as [rf'|]; [|discriminate]. injection H as ->.
      rewrite (Hx _ eq_refl), (T1 _ _ Hrun), map_app, concat_app.
      reflexivity.
    + apply Nat.eqb_neq in Ek. rewrite He by congruence.
      rewrite app_nil_r. now apply T1.
  - intros k L. rewrite Hr, replace_nth_length in L.
    rewrite chunks_to_snoc, He by lia. rewrite app_nil_r. now apply T2.
Qed.

Lemma step_runs_track_chunks
    (v : Variant) (host : Host) (evs : list Event) (e : Event) (s s' : Sys) :
  step v host e s = Some s' ->
  runs_track_chunks v evs s -> runs_track_chunks v (evs ++ [e]) s'.
Proof.
  destruct e; cbn [step]; unfold guard;
    repeat match goal with
           | |- context [match ?x with _ => _ end] =>
               match x with
               | context [deliver] => fail 1
               | _ => destruct x eqn:?
               end
           end; intros [= <-] T;
    try (apply (@track_append v evs _ s _ []);
         [ reflexivity
         | rewrite app_nil_r, deliver_refinements;
           [ reflexivity
           | intros;
             try match goal with
                 | a : option _ |- _ => destruct a
                 | a : StartNext |- _ => destruct a
                 end;
             reflexivity ]
         | constructor
         | exact T ]).
  - destruct (deliver_add_refinement_appends s
                (begins_empty_stopListening v)) as (new & E & F).
    eapply track_append; eauto.
  - destruct (deliver_add_refinement_appends s
                (begins_empty_handleManualSubmit host env)) as (new & E & F).
    eapply track_append; eauto.
  - destruct (deliver_add_refinement_appends s
                begins_empty_handleRegenerate) as (new & E & F).
    eapply track_append; eauto.
  - destruct (deliver_add_refinement_appends s
                (begins_empty_onclose v c)) as (new & E & F).
    eapply track_append; eauto.
  - destruct (optimizePrompt_chunk_spec v r0 c (world s)) as [p Hp].
    eapply (@track_replace v evs _ s _ r _ r0); eauto.
    + unfold deliver. rewrite Hp. reflexivity.
    + intros k Hk. cbn. destruct (Nat.eqb r k) eqn:E; [|reflexivity].
      apply Nat.eqb_eq in E. congruence.
    + intros rf' [= <-]. cbn. rewrite Nat.eqb_refl. cbn.
      now rewrite app_nil_r.
  - eapply (@track_replace v evs _ s _ r None r0); eauto.
    intros rf0 H; discriminate H.
  - eapply (@track_replace v evs _ s _ r None r0); eauto.
    + now rewrite deliver_refinements by reflexivity.
    + intros rf0 H; discriminate H.
Qed.

Lemma run_runs_track_chunks
    (v : Variant) (host : Host) (evs : list Event) :
  forall s, run v host evs initial = Some s -> runs_track_chunks v evs s.
Proof.
  induction evs as [|e evs IH] using rev_ind; intros s H.
  - injection H as <-. split.
    + intros k rf. unfold suspended_run. cbn. now destruct k.
    + reflexivity.
  - apply run_snoc in H. destruct H as (s1 & H1 & H2).
    eapply step_runs_track_chunks; [exact H2|now apply IH].
Qed.

(** X12.  When the stream of a refinement run is exhausted, the item
    stored carries the concatenation of what the chunks delivered to that
    very run added, in order, whatever other events (chunks of other
    runs, errors, clicks) came in between, together with the id and the
    timestamp read at that moment. *)
Theorem stored_prompt_is_the_text_of_the_runs_own_chunks
    (v : Variant) (host : Host) (evs : list Event) (s s' : Sys)
    (k : nat) (now_id now_timestamp : Z) :
  run v host evs initial = Some s ->
  step v host (StreamExhausted k now_id now_timestamp) s = Some s' ->
  exists item,
    history (state (world s')) = item :: history (state (world s))
    /\ HistoryItem.optimizedPrompt item
       = List.concat (map (delta v) (chunks_to k evs))
    /\ HistoryItem.id item = Number_toString now_id
    /\ HistoryItem.timestamp item = now_timestamp.
Proof.
  intros Hrun Hstep.
  destruct (run_runs_track_chunks _ _ _ Hrun) as [T _].
  rewrite (step_history _ _ _ _ Hstep). cbn [stored_by].
  cbn [step] in Hstep.
  destruct (suspended_run k s) as [rf|] eqn:E; [|discriminate].
  eexists. split; [reflexivity|]. cbn. repeat split. now apply T.
Qed.

Lemma stored_prompt_is_the_text_of_the_runs_own_chunks_witness :
  exists s s' item,
    run V2 studio_host
      (capture [utf16 "Write a poem"]
       ++ [ClickStop;
           StreamChunk 0 {| text := Some (utf16 "# Po") |};
           SessionError 0 {| message := None |};
           ClickRegenerate;
           StreamChunk 1 {| text := Some (utf16 "## Verse") |};
           StreamChunk 0 {| text := Some (utf16 "em") |}]) initial = Some s
    /\ step V2 studio_host (StreamExhausted 0 1730000000000 1730000000000) s
       = Some s'
    /\ hd_error (history (state (world s'))) = Some item
    /\ HistoryItem.optimizedPrompt item = utf16 "# Poem".
Proof.
  destruct (@stored_prompt_is_the_text_of_the_runs_own_chunks
              V2 studio_host
              (capture [utf16 "Write a poem"]
               ++ [ClickStop;
                   StreamChunk 0 {| text := Some (utf16 "# Po") |};
                   SessionError 0 {| message := None |};
                   ClickRegenerate;
                   StreamChunk 1 {| text := Some (utf16 "## Verse") |};
                   StreamChunk 0 {| text := Some (utf16 "em") |}])
              _ _ 0 1730000000000 1730000000000
              ltac:(vm_compute; reflexivity) ltac:(vm_compute; reflexivity))
    as (item & H & P & _).
  do 2 eexists. exists item.
  split; [vm_compute; reflexivity|]. split; [vm_compute; reflexivity|].
  split; [rewrite H; reflexivity|]. rewrite P. vm_compute. reflexivity.
Defined.

(** ** Closing the live session *)

Lemma closes_nothing_unheld_refl w : closes_nothing_unheld w w.
Proof. intros H. now split. Qed.

Lemma closes_nothing_unheld_trans a b c :
  closes_nothing_unheld a b -> closes_nothing_unheld b c ->
  closes_nothing_unheld a c.
Proof.
  unfold closes_nothing_unheld. intros H1 H2 Ha.
  destruct (H1 Ha) as [Hb E1]. destruct (H2 Hb) as [Hc E2].
  split; congruence.
Qed.

Lemma release_calls_closes (r : Refs) :
  sessionRef r = None -> filter is_session_close (release_calls r) = [].
Proof.
  intros H. unfold release_calls. rewrite H, !filter_app.
  destruct (audioContextRef r) as [[? []]|], (scriptProcessorRef r),
    (streamRef r) as [[? tracks]|]; cbn;
    rewrite ?app_nil_r; try reflexivity;
    induction tracks as [|t tracks IH]; cbn; try reflexivity;
    rewrite filter_app, IH; reflexivity.
Qed.

Lemma closes_nothing_unheld_stopListeningInternal :
  preserves closes_nothing_unheld stopListeningInternal.
Proof.
  intros w H. unfold exec. rewrite stopListeningInternal_spec.
  split; [reflexivity|]. unfold session_closes. cbn.
  now rewrite filter_app, release_calls_closes.
Qed.
#[local] Hint Resolve closes_nothing_unheld_stopListeningInternal : frames.

Ltac closes_leaf :=
  match goal with
  | w : World |- closes_nothing_unheld _ _ =>
      destruct w as [? [] ? ?]; intros H; split; [exact H|reflexivity]
  end.

Lemma step_closes_nothing_unheld
    (v : Variant) (host : Host) (e : Event) (s s' : Sys) :
  is_audio_frame e = false ->
  step v host e s = Some s' ->
  closes_nothing_unheld (world s) (world s').
Proof.
  destruct e; intros Ha; try discriminate Ha; step_cases; to_preserves;
    unfold_handlers;
    frame_open closes_nothing_unheld_refl closes_nothing_unheld_trans;
    closes_leaf.
Qed.

(** X13.  The session handle is stored only when an audio frame is
    forwarded: as long as no frame has been processed, the component
    holds no session handle and never calls [session.close()], however
    the capture ends. *)
Theorem no_session_is_closed_before_its_first_frame
    (v : Variant) (host : Host) (evs : list Event) (s : Sys) :
  forallb (fun e => negb (is_audio_frame e)) evs = true ->
  run v host evs initial = Some s ->
  sessionRef (refs (world s)) = None
  /\ session_closes (world s) = [].
Proof.
  intros Hno Hrun.
  assert (G : closes_nothing_unheld (world initial) (world s)).
  { revert Hno Hrun. generalize initial.
    induction evs as [|e evs IH]; intros s0 Hno Hrun;
      cbn [run forallb] in Hno, Hrun.
    - injection Hrun as <-. apply closes_nothing_unheld_refl.
    - apply andb_prop in Hno. destruct Hno as [He Hno].
      destruct (step v host e s0) as [s1|] eqn:E; [|discriminate].
      eapply closes_nothing_unheld_trans; [|apply IH; eassumption].
      eapply step_closes_nothing_unheld; [|exact E].
      now destruct (is_audio_frame e). }
  exact (G eq_refl).
Qed.

Lemma no_session_is_closed_before_its_first_frame_witness :
  exists s,
    run V1 studio_host
      [ClickStart studio_env; SessionOpen 0 {| node_id := 5 |}; ClickStop]
      initial = Some s
    /\ In (call_live_connect 3) (calls (world s))
    /\ status (state (world s)) = IDLE
    /\ released (refs (world s))
    /\ session_closes (world s) = [].
Proof.
  eexists. split; [vm_compute; reflexivity|].
  split; [vm_compute; tauto|]. split; [reflexivity|].
  split; [repeat split|].
  refine (proj2 (@no_session_is_closed_before_its_first_frame V1 studio_host
            [ClickStart studio_env; SessionOpen 0 {| node_id := 5 |};
             ClickStop] _ _ _));
    vm_compute; reflexivity.
Defined.

(** ** Regenerating *)

Lemma handleRegenerate_unfold (w : World) :
  handleRegenerate w
  = let buffer := transcriptRef (refs w) in
    if truthy (trim buffer)
    then (Returned (Some {| rawInput := buffer; fullText := [] |}),
          exec (optimizePrompt_begin V2 buffer) w)
    else (Returned None, w).
Proof.
  unfold handleRegenerate. unfold bind at 1, get at 1. cbn beta iota zeta.
  destruct (truthy (trim (transcriptRef (refs w)))); [|reflexivity].
  unfold bind, exec. rewrite optimizePrompt_begin_spec. reflexivity.
Qed.

(** X8.  Everything [handleRegenerate] can do.  On a blank buffer it does
    nothing.  Otherwise it starts one refinement run on the buffer as it
    is, with exactly one call, the request: no key check, no teardown;
    the status becomes Optimizing, the display is cleared, and the error
    message, the history and the refs stay as they were.  It never
    throws. *)
Theorem handleRegenerate_outcomes (w : World) :
  let buffer := transcriptRef (refs w) in
  let w' := exec handleRegenerate w in
  match result handleRegenerate w with
  | Returned None => trim buffer = [] /\ w' = w
  | Returned (Some r) =>
      trim buffer <> [] /\ r = {| rawInput := buffer; fullText := [] |}
      /\ status (state w') = OPTIMIZING
      /\ optimizedPrompt (state w') = []
      /\ error (state w') = error (state w)
      /\ history (state w') = history (state w)
      /\ refs w' = refs w
      /\ calls w' = call_generateContentStream (contents V2 buffer) :: calls w
  | Raised _ => False
  end.
Proof.
  cbn zeta. unfold result, exec. rewrite handleRegenerate_unfold. cbn zeta.
  destruct (truthy (trim (transcriptRef (refs w)))) eqn:T; cbn [fst snd].
  - apply truthy_nonempty in T. unfold exec.
    rewrite optimizePrompt_begin_spec. cbn [snd].
    destruct w as [[] ? ? ?]. repeat split; auto.
  - split; [|reflexivity].
    destruct (trim (transcriptRef (refs w))); [reflexivity|discriminate].
Qed.
